(** * College Event Management API: the event record model

    A shallow embedding of [src/main.py] and [src/schemas.py]: the request
    model [EventCreate], the storage schema [Event], the storage-to-API
    mapping [serialize_event], the seeding policy [ensure_seed] and the two
    endpoints [list_events] and [create_event]. *)

From Stdlib Require Import Ascii.
From stdpp Require Import gmap strings list fin_maps pretty.

Local Open Scope string_scope.
Local Open Scope list_scope.
Local Open Scope nat_scope.
Local Set Warnings "-register-all,-clear-no-such-hyp".

(** ** Python values

    The values a request body or a stored document can hold.  A [date] is
    its three fields, a naive [datetime] adds the time of day, an [ObjectId]
    is its 12-byte number.  [VOther] stands for a value of any other type
    (float, nested document, binary, ...): it has no [isoformat] attribute
    and is known here by the text [str] gives for it. *)

Record Date := mkDate { year : nat; month : nat; day : nat }.

Record DateTime := mkDateTime {
  dt_date : Date; hour : nat; minute : nat; second : nat; microsecond : nat }.

Inductive Value :=
  | VNone
  | VBool (b : bool)
  | VInt (z : Z)
  | VStr (s : string)
  | VList (l : list Value)
  | VDate (d : Date)
  | VDateTime (t : DateTime)
  | VOid (n : N)
  | VOther (text : string).

Global Instance Date_eq_dec : EqDecision Date.
Proof. solve_decision. Defined.

Global Instance DateTime_eq_dec : EqDecision DateTime.
Proof. solve_decision. Defined.

Global Instance Value_eq_dec : EqDecision Value.
Proof.
  refine (fix go (x y : Value) {struct x} : Decision (x = y) :=
    match x, y with
    | VNone, VNone => left _
    | VBool a, VBool b => cast_if (decide (a = b))
    | VInt a, VInt b => cast_if (decide (a = b))
    | VStr a, VStr b => cast_if (decide (a = b))
    | VList a, VList b => cast_if (@decide (a = b) (@list_eq_dec _ go a b))
    | VDate a, VDate b => cast_if (decide (a = b))
    | VDateTime a, VDateTime b => cast_if (decide (a = b))
    | VOid a, VOid b => cast_if (decide (a = b))
    | VOther a, VOther b => cast_if (decide (a = b))
    | _, _ => right _
    end); abstract congruence.
Defined.

(** A document (a Python [dict] with text keys). *)
Abbreviation Doc := (gmap string Value).

(** ** Rendering: [isoformat] and [str] *)

(** [n] in decimal, left-padded with zeros to [width] characters. *)
Fixpoint zeros (k : nat) : string :=
  match k with O => "" | S k' => "0" +:+ zeros k' end.

Definition zfill (width n : nat) : string :=
  let s := pretty n in zeros (width - String.length s) +:+ s.

(** [date.isoformat()]: YYYY-MM-DD. *)
Definition isoformat_date (d : Date) : string :=
  zfill 4 (year d) +:+ "-" +:+ zfill 2 (month d) +:+ "-" +:+ zfill 2 (day d).

(** The time of day of a naive [datetime]: HH:MM:SS, then .ffffff when the
    microsecond is not zero. *)
Definition clock_text (t : DateTime) : string :=
  zfill 2 (hour t) +:+ ":" +:+ zfill 2 (minute t) +:+ ":" +:+ zfill 2 (second t)
  +:+ (if decide (microsecond t = 0) then "" else "." +:+ zfill 6 (microsecond t)).

(** [datetime.isoformat()] separates date and time with T, [str] with a
    space. *)
Definition isoformat_datetime (t : DateTime) : string :=
  isoformat_date (dt_date t) +:+ "T" +:+ clock_text t.

Definition str_datetime (t : DateTime) : string :=
  isoformat_date (dt_date t) +:+ " " +:+ clock_text t.

(** [str(ObjectId)]: 24 lowercase hexadecimal digits. *)
Definition hex_digit (n : N) : string :=
  match n with
  | 0 => "0" | 1 => "1" | 2 => "2" | 3 => "3" | 4 => "4" | 5 => "5"
  | 6 => "6" | 7 => "7" | 8 => "8" | 9 => "9" | 10 => "a" | 11 => "b"
  | 12 => "c" | 13 => "d" | 14 => "e" | _ => "f"
  end%N.

Fixpoint hex_go (digits : nat) (n : N) (acc : string) : string :=
  match digits with
  | O => acc
  | S k => hex_go k (n / 16)%N (hex_digit (n mod 16)%N +:+ acc)
  end.

Definition str_oid (n : N) : string := hex_go 24 n "".

(** An error line of a failed validation: the field, the item inside it
    when the field is a list, and the kind of the error. *)
Definition FieldError : Type := string * option nat * string.

(** ** The runtime the program runs on

    What the program takes from its Python runtime and is not defined in the
    repository: the day the module is imported, [repr] (which [str] of a
    list calls on the items), pydantic's lax conversions of a non-date input
    to a date and of a non-bool input to a bool, the text of a
    validation error, and the kind of error pydantic reports for a value
    it converts neither to a date ([date_error]) nor to a bool
    ([bool_error]). *)

Record Runtime := mkRuntime {
  today : Date;
  py_repr : Value -> string;
  lax_date : Value -> option Date;
  lax_bool : Value -> option bool;
  str_validation_error : list FieldError -> string;
  date_error : Value -> string;
  bool_error : Value -> string;
}.

(** [str(v)]. *)
Definition py_str (rt : Runtime) (v : Value) : string :=
  match v with
  | VNone => "None"
  | VBool b => if b then "True" else "False"
  | VInt z => pretty z
  | VStr s => s
  | VList l => "[" +:+ String.concat ", " (py_repr rt <$> l) +:+ "]"
  | VDate d => isoformat_date d
  | VDateTime t => str_datetime t
  | VOid n => str_oid n
  | VOther text => text
  end.

(** [v.isoformat()]; [None] when [v] has no such attribute, which is
    [hasattr(v, "isoformat")] being false. *)
Definition isoformat (v : Value) : option string :=
  match v with
  | VDate d => Some (isoformat_date d)
  | VDateTime t => Some (isoformat_datetime t)
  | _ => None
  end.

Definition hasattr_isoformat (v : Value) : bool :=
  match isoformat v with Some _ => true | None => false end.

(** ** Validation (pydantic models)

    A model collects the error lines of all its fields, in the order the
    fields are declared. *)

Definition Validated (A : Type) : Type := list FieldError + A.

Definition v_map {A B} (f : A -> B) (r : Validated A) : Validated B :=
  match r with inl e => inl e | inr a => inr (f a) end.

Definition v_ap {A B} (rf : Validated (A -> B)) (ra : Validated A) : Validated B :=
  match rf, ra with
  | inr f, inr a => inr (f a)
  | inr _, inl e => inl e
  | inl e, inr _ => inl e
  | inl e1, inl e2 => inl (e1 ++ e2)
  end.

Declare Scope validated_scope.
Delimit Scope validated_scope with V.
Notation "f <$$> r" := (v_map f r) (at level 61, left associativity) : validated_scope.
Notation "rf <**> ra" := (v_ap rf ra) (at level 61, left associativity) : validated_scope.

Definition field_error (k kind : string) : FieldError := (k, None, kind).
Definition item_error (k : string) (i : nat) (kind : string) : FieldError := (k, Some i, kind).

(** [k: str] *)
Definition field_str (k : string) (o : option Value) : Validated string :=
  match o with
  | None => inl [field_error k "missing"]
  | Some (VStr s) => inr s
  | Some _ => inl [field_error k "string_type"]
  end.

(** [k: date]: a date is taken as it is, anything else goes through the
    lax conversion. *)
Definition date_of (rt : Runtime) (v : Value) : option Date :=
  match v with
  | VDate d => Some d
  | _ => lax_date rt v
  end.

Definition field_date (rt : Runtime) (k : string) (o : option Value) : Validated Date :=
  match o with
  | None => inl [field_error k "missing"]
  | Some v =>
      match date_of rt v with
      | Some d => inr d
      | None => inl [field_error k (date_error rt v)]
      end
  end.

(** [k: Optional[str] = None] *)
Definition field_optional_str (k : string) (o : option Value) : Validated (option string) :=
  match o with
  | None => inr None
  | Some VNone => inr None
  | Some (VStr s) => inr (Some s)
  | Some _ => inl [field_error k "string_type"]
  end.

(** [k: List[str]] with an empty list as default; one error line for each
    item that is not text. *)
Fixpoint items_str (k : string) (i : nat) (l : list Value) : Validated (list string) :=
  match l with
  | [] => inr []
  | v :: l' =>
      (cons <$$> match v with
                 | VStr s => inr s
                 | _ => inl [item_error k i "string_type"]
                 end
            <**> items_str k (S i) l')%V
  end.

Definition field_list_str (k : string) (o : option Value) : Validated (list string) :=
  match o with
  | None => inr []
  | Some (VList l) => items_str k 0 l
  | Some _ => inl [field_error k "list_type"]
  end.

(** [k: bool = False] *)
Definition bool_of (rt : Runtime) (v : Value) : option bool :=
  match v with
  | VBool b => Some b
  | _ => lax_bool rt v
  end.

Definition field_bool (rt : Runtime) (k : string) (o : option Value) : Validated bool :=
  match o with
  | None => inr false
  | Some v =>
      match bool_of rt v with
      | Some b => inr b
      | None => inl [field_error k (bool_error rt v)]
      end
  end.

Definition opt_value (o : option string) : Value :=
  match o with Some s => VStr s | None => VNone end.

(** The request model, [main.py] lines 23-32. *)
Module EventCreate.
Record t := mk {
  title : string;
  description : string;
  event_date : Date;
  event_time : string;
  location : string;
  category : string;
  cover_image : option string;
  tags : list string;
  is_featured : bool;
}.

(** The constructor applied to the keys of [body]; keys that are not
    fields are ignored. *)
Definition validate (rt : Runtime) (body : Doc) : Validated t :=
  (mk <$$> field_str "title" (body !! "title")
      <**> field_str "description" (body !! "description")
      <**> field_date rt "event_date" (body !! "event_date")
      <**> field_str "event_time" (body !! "event_time")
      <**> field_str "location" (body !! "location")
      <**> field_str "category" (body !! "category")
      <**> field_optional_str "cover_image" (body !! "cover_image")
      <**> field_list_str "tags" (body !! "tags")
      <**> field_bool rt "is_featured" (body !! "is_featured"))%V.

(** [event.model_dump()] *)
Definition model_dump (e : t) : Doc :=
  <["title" := VStr (title e)]>
  (<["description" := VStr (description e)]>
  (<["event_date" := VDate (event_date e)]>
  (<["event_time" := VStr (event_time e)]>
  (<["location" := VStr (location e)]>
  (<["category" := VStr (category e)]>
  (<["cover_image" := opt_value (cover_image e)]>
  (<["tags" := VList (VStr <$> tags e)]>
  (<["is_featured" := VBool (is_featured e)]> ∅)))))))).
End EventCreate.

(** The storage schema, [schemas.py] lines 44-57. *)
Module Event.
Record t := mk {
  title : string;
  description : string;
  event_date : Date;
  event_time : string;
  location : string;
  category : string;
  cover_image : option string;
  tags : list string;
  is_featured : bool;
}.

(** The constructor applied to the keys of [fields]. *)
Definition validate (rt : Runtime) (fields : Doc) : Validated t :=
  (mk <$$> field_str "title" (fields !! "title")
      <**> field_str "description" (fields !! "description")
      <**> field_date rt "event_date" (fields !! "event_date")
      <**> field_str "event_time" (fields !! "event_time")
      <**> field_str "location" (fields !! "location")
      <**> field_str "category" (fields !! "category")
      <**> field_optional_str "cover_image" (fields !! "cover_image")
      <**> field_list_str "tags" (fields !! "tags")
      <**> field_bool rt "is_featured" (fields !! "is_featured"))%V.
End Event.

(** The fields of a parsed request as an [Event]. *)
Definition to_schema (e : EventCreate.t) : Event.t :=
  Event.mk (EventCreate.title e) (EventCreate.description e) (EventCreate.event_date e)
           (EventCreate.event_time e) (EventCreate.location e) (EventCreate.category e)
           (EventCreate.cover_image e) (EventCreate.tags e) (EventCreate.is_featured e).

Definition is_valid {A} (r : Validated A) : bool :=
  match r with inr _ => true | inl _ => false end.

(** A failed validation has at least one error line. *)
Definition has_lines {A} (r : Validated A) : Prop :=
  match r with inl [] => False | _ => True end.

(** *** The validation rule in the words of the specification

    Section 4.1 without the demand that a text field be non-empty: [title],
    [description], [location] and [category] are present and are text, the
    empty text included; [event_date] is present and converts to a date;
    [event_time] is present and is text; [cover_image], when present, is
    text or null; [tags], when present, is a list of text items;
    [is_featured], when present, converts to a boolean. *)

Definition is_text (o : option Value) : bool :=
  match o with Some (VStr _) => true | _ => false end.

Definition is_date (rt : Runtime) (o : option Value) : bool :=
  match o with
  | Some v => bool_decide (is_Some (date_of rt v))
  | None => false
  end.

Definition is_optional_text (o : option Value) : bool :=
  match o with
  | None | Some VNone | Some (VStr _) => true
  | Some _ => false
  end.

Definition is_text_list (o : option Value) : bool :=
  match o with
  | None => true
  | Some (VList l) => forallb (λ v, is_text (Some v)) l
  | Some _ => false
  end.

Definition is_optional_bool (rt : Runtime) (o : option Value) : bool :=
  match o with
  | Some v => bool_decide (is_Some (bool_of rt v))
  | None => true
  end.

Definition valid_input (rt : Runtime) (input : Doc) : bool :=
  is_text (input !! "title")
  && is_text (input !! "description")
  && is_date rt (input !! "event_date")
  && is_text (input !! "event_time")
  && is_text (input !! "location")
  && is_text (input !! "category")
  && is_optional_text (input !! "cover_image")
  && is_text_list (input !! "tags")
  && is_optional_bool rt (input !! "is_featured").

(** ** State and exceptions

    A computation reads and writes a state [S] and either returns a value
    or raises an exception [E].  What it wrote before raising stays
    written. *)

Definition SE (S E A : Type) : Type := S -> (E + A) * S.

Global Instance SE_ret {S E} : MRet (SE S E) := λ A a s, (inr a, s).

Global Instance SE_bind {S E} : MBind (SE S E) := λ A B f m s,
  match m s with
  | (inr a, s') => f a s'
  | (inl e, s') => (inl e, s')
  end.

Definition raise {S E A} (e : E) : SE S E A := λ s, (inl e, s).

Definition gets {S E A} (f : S -> A) : SE S E A := λ s, (inr (f s), s).

Definition modify {S E} (f : S -> S) : SE S E unit := λ s, (inr tt, f s).

(** [try: m except Exception as e: handler e] *)
Definition try_except {S E A} (m : SE S E A) (handler : E -> SE S E A) : SE S E A := λ s,
  match m s with
  | (inl e, s') => handler e s'
  | r => r
  end.

(** [for x in l: body x] *)
Fixpoint for_each {S E A B} (l : list A) (body : A -> SE S E B) : SE S E unit :=
  match l with
  | [] => mret tt
  | x :: l' => body x ≫= λ _, for_each l' body
  end.

Inductive Exc :=
  | ValidationError (errs : list FieldError)
  | GatewayError (msg : string)
  | HTTPException (status_code : nat) (detail : string).

(** [str(e)] *)
Definition exc_str (rt : Runtime) (e : Exc) : string :=
  match e with
  | ValidationError errs => str_validation_error rt errs
  | GatewayError msg => msg
  | HTTPException c d => pretty c +:+ ": " +:+ d
  end.

(** ** The storage gateway *)

(** Modelled from the spec: the module [database] ([db], [create_document],
    [get_documents]) is not among the sources.  The store holds named
    collections of documents in insertion order and the next identifier to
    assign.  [connected] is [db is not None].  [faults] is the schedule of
    the coming round trips to the database: [true] makes the round trip
    raise, [false] or an exhausted schedule lets it through. *)
Record Store := mkStore {
  connected : bool;
  collections : gmap string (list Doc);
  next_oid : N;
  faults : list bool;
}.

Abbreviation M := (SE Store Exc).

Definition collection (name : string) (s : Store) : list Doc :=
  default [] (collections s !! name).

Definition set_faults (fs : list bool) (s : Store) : Store :=
  mkStore (connected s) (collections s) (next_oid s) fs.

Definition insert_one (name : string) (doc : Doc) (s : Store) : Store :=
  mkStore (connected s)
          (<[name := collection name s ++ [<["_id" := VOid (next_oid s)]> doc]]> (collections s))
          (next_oid s + 1)%N
          (faults s).

(** Modelled from the spec: one round trip to the database; a gateway that
    is unreachable or faulting raises. *)
Definition round_trip : M unit := λ s,
  if connected s then
    match faults s with
    | true :: fs => (inl (GatewayError "storage fault"), set_faults fs s)
    | false :: fs => (inr tt, set_faults fs s)
    | [] => (inr tt, s)
    end
  else (inl (GatewayError "Database not available"), s).

(** Modelled from the spec: a filter is a set of equality clauses; a
    document matches when it has every key of the filter at the value
    asked. *)
Definition matches (filt doc : Doc) : bool :=
  bool_decide (map_Forall (λ k v, doc !! k = Some v) filt).

(** Modelled from the spec: [db[name].count_documents(filt)]. *)
Definition count_documents (name : string) (filt : Doc) : M nat :=
  round_trip ≫= λ _, gets (λ s, length (filter (λ d, matches filt d = true) (collection name s))).

(** Modelled from the spec: [create_document(name, data)] stores a copy of
    [data] under a newly assigned identifier and returns the identifier in
    its string form. *)
Definition create_document (name : string) (data : Doc) : M string :=
  round_trip ≫= λ _, gets next_oid ≫= λ oid,
  modify (insert_one name data) ≫= λ _, mret (str_oid oid).

(** Modelled from the spec: [get_documents(name, filt)] returns the
    matching documents in stored order. *)
Definition get_documents (name : string) (filt : Doc) : M (list Doc) :=
  round_trip ≫= λ _, gets (λ s, filter (λ d, matches filt d = true) (collection name s)).

(** ** Seeding, [main.py] lines 79-127 *)

Definition sample_event (title description : string) (event_date : Date)
    (event_time location category cover_image : string) (tags : list string)
    (is_featured : bool) : Doc :=
  <["title" := VStr title]>
  (<["description" := VStr description]>
  (<["event_date" := VDate event_date]>
  (<["event_time" := VStr event_time]>
  (<["location" := VStr location]>
  (<["category" := VStr category]>
  (<["cover_image" := VStr cover_image]>
  (<["tags" := VList (VStr <$> tags)]>
  (<["is_featured" := VBool is_featured]> ∅)))))))).

(** [d.replace(day=n)] *)
Definition replace_day (d : Date) (n : nat) : Date := mkDate (year d) (month d) n.

Definition SAMPLE_EVENTS (rt : Runtime) : list Doc :=
  [ sample_event "Tech Symposium 2025"
      "A showcase of cutting-edge projects, keynote talks, and hackathon finals."
      (replace_day (today rt) (28 `min` day (today rt)))
      "10:00 AM" "Main Auditorium" "Tech"
      "https://images.unsplash.com/photo-1551836022-d5d88e9218df?q=80&w=1600&auto=format&fit=crop"
      ["ai"; "robotics"; "talks"] true;
    sample_event "Cultural Night Fiesta"
      "An evening of performances, fashion show, and food stalls."
      (today rt)
      "06:30 PM" "Open Air Theatre" "Cultural"
      "https://images.unsplash.com/photo-1515165562835-c3b8c0b1a3b0?q=80&w=1600&auto=format&fit=crop"
      ["dance"; "music"; "food"] true;
    sample_event "Data Science Workshop"
      "Hands-on bootcamp on Python, pandas, and ML pipelines."
      (today rt)
      "02:00 PM" "Lab Complex - 204" "Workshop"
      "https://images.unsplash.com/photo-1555949963-aa79dcee981d?q=80&w=1600&auto=format&fit=crop"
      ["python"; "ml"; "workshop"] false ].

Definition ensure_seed (rt : Runtime) : M unit :=
  try_except
    (gets connected ≫= λ db,
     if negb db then mret tt
     else
       count_documents "event" ∅ ≫= λ count,
       if decide (count = 0)
       then for_each (SAMPLE_EVENTS rt) (λ ev, create_document "event" ev)
       else mret tt)
    (λ _, mret tt).

(** ** Storage record to API record, [main.py] lines 130-146 *)

(** The assignment to [out["date"]]: [isoformat()] when the value has it,
    [str] otherwise; the handler of the [try] falls back to [str] as well. *)
Definition date_text (rt : Runtime) (v : Value) : string :=
  match isoformat v with
  | Some s => s
  | None => py_str rt v
  end.

(** One round of the loop over the timestamp keys. *)
Definition convert_timestamp (out : Doc) (ts : string) : Doc :=
  match out !! ts with
  | Some v =>
      match isoformat v with
      | Some s => <[ts := VStr s]> out
      | None => out
      end
  | None => out
  end.

Definition serialize_event (rt : Runtime) (d : Doc) : Doc :=
  let out := d in
  let out :=
    match out !! "_id" with
    | Some oid => <["id" := VStr (py_str rt oid)]> (delete "_id" out)
    | None => out
    end in
  let out :=
    match out !! "event_date" with
    | Some v => <["date" := VStr (date_text rt v)]> out
    | None => out
    end in
  let out :=
    match out !! "event_time" with
    | Some v => <["time" := v]> out
    | None => out
    end in
  foldl convert_timestamp out ["created_at"; "updated_at"].

(** A timestamp that can render itself becomes text; any other value
    stays. *)
Definition timestamp_text (v : Value) : Value :=
  match isoformat v with
  | Some s => VStr s
  | None => v
  end.

(** The value of [serialize_event rt d] at key [k], read off the original
    record [d]. *)
Definition serialized_lookup (rt : Runtime) (d : Doc) (k : string) : option Value :=
  if decide (k = "_id") then None
  else if decide (k = "id") then
    match d !! "_id" with
    | Some oid => Some (VStr (py_str rt oid))
    | None => d !! "id"
    end
  else if decide (k = "date") then
    match d !! "event_date" with
    | Some v => Some (VStr (date_text rt v))
    | None => d !! "date"
    end
  else if decide (k = "time") then
    match d !! "event_time" with
    | Some v => Some v
    | None => d !! "time"
    end
  else if decide (k = "created_at" ∨ k = "updated_at") then timestamp_text <$> d !! k
  else d !! k.

(** ** The endpoints, [main.py] lines 149-172 *)

(** What an endpoint returns. *)
Inductive Payload :=
  | Events (events : list Doc)
  | Created (id message : string).

(** Truth value of an optional text argument: [None] and the empty string
    are false. *)
Definition truthy (o : option string) : bool :=
  match o with
  | Some s => negb (bool_decide (s = ""))
  | None => false
  end.

(** The filter [filt] of [list_events], lines 152-156. *)
Definition list_filter (category : option string) (featured : option bool) : Doc :=
  let filt : Doc := ∅ in
  let filt :=
    if truthy category
    then match category with
         | Some c => <["category" := VStr c]> filt
         | None => filt
         end
    else filt in
  let filt :=
    match featured with
    | Some b => <["is_featured" := VBool b]> filt
    | None => filt
    end in
  filt.

Definition list_events (rt : Runtime) (category : option string) (featured : option bool)
    : M Payload :=
  ensure_seed rt ≫= λ _,
  let filt := list_filter category featured in
  try_except
    (get_documents "event" filt ≫= λ docs,
     mret (Events (serialize_event rt <$> docs)))
    (λ e, raise (HTTPException 500 (exc_str rt e))).

(** Raise the error a validation gave, or go on with its value. *)
Definition construct {A} (r : Validated A) : M A :=
  match r with
  | inl errs => raise (ValidationError errs)
  | inr a => mret a
  end.

Definition create_event (rt : Runtime) (event : EventCreate.t) : M Payload :=
  try_except
    (construct (Event.validate rt (EventCreate.model_dump event)) ≫= λ _,
     create_document "event" (EventCreate.model_dump event) ≫= λ inserted_id,
     mret (Created inserted_id "Event created"))
    (λ e, raise (HTTPException 400 (exc_str rt e))).

(** ** The HTTP surface

    What FastAPI does around an endpoint: a request body that fails the
    endpoint's parameter model is answered 422 with the error lines and the
    endpoint is not called; an [HTTPException] becomes a response with its
    status code and detail; any other exception is answered 500. *)

Inductive Body :=
  | Json (p : Payload)
  | Detail (text : string)
  | DetailErrors (errs : list FieldError).

Record Response := mkResponse { status : nat; body : Body }.

Definition respond (ok_status : nat) (m : M Payload) : M Response := λ s,
  match m s with
  | (inr p, s') => (inr (mkResponse ok_status (Json p)), s')
  | (inl (HTTPException c d), s') => (inr (mkResponse c (Detail d)), s')
  | (inl _, s') => (inr (mkResponse 500 (Detail "Internal Server Error")), s')
  end.

(** [GET /api/events], once the query parameters are parsed. *)
Definition get_api_events (rt : Runtime) (category : option string) (featured : option bool)
    : M Response :=
  respond 200 (list_events rt category featured).

(** [POST /api/events], status code 201 on success. *)
Definition post_api_events (rt : Runtime) (request_body : Doc) : M Response :=
  match EventCreate.validate rt request_body with
  | inl errs => mret (mkResponse 422 (DetailErrors errs))
  | inr event => respond 201 (create_event rt event)
  end.

Definition is_client_error (r : Response) : bool :=
  bool_decide (400 ≤ status r < 500).

Definition is_server_error (r : Response) : bool :=
  bool_decide (500 ≤ status r < 600).

(** ** [serialize_event] on the heap

    The same function with its dictionaries as objects on a heap, to see
    what it writes to: [dict(d)] allocates a copy, [pop] and item assignment
    update an object in place, a missing key or attribute raises. *)

Inductive PyError :=
  | KeyError (k : string)
  | AttributeError (name : string)
  | BadReference.

Module Imp.
(** A heap is the list of its dictionaries; a reference is an index. *)
Abbreviation H := (SE (list Doc) PyError).

Definition deref (l : nat) : H Doc := λ h,
  match h !! l with
  | Some r => (inr r, h)
  | None => (inl BadReference, h)
  end.

Definition alloc (r : Doc) : H nat := λ h, (inr (length h), h ++ [r]).

(** [dict(l)] *)
Definition dict_copy (l : nat) : H nat :=
  r ← deref l; alloc r.

(** [k in l] *)
Definition contains (l : nat) (k : string) : H bool :=
  r ← deref l; mret (bool_decide (is_Some (r !! k))).

(** [l[k]] *)
Definition getitem (l : nat) (k : string) : H Value :=
  r ← deref l;
  match r !! k with
  | Some v => mret v
  | None => raise (KeyError k)
  end.

(** [l.pop(k)] *)
Definition pop (l : nat) (k : string) : H Value :=
  r ← deref l;
  match r !! k with
  | Some v => modify (λ h, <[l := delete k r]> h);; mret v
  | None => raise (KeyError k)
  end.

(** [l[k] = v] *)
Definition setitem (l : nat) (k : string) (v : Value) : H unit :=
  r ← deref l; modify (λ h, <[l := <[k := v]> r]> h).

(** [v.isoformat()] *)
Definition call_isoformat (v : Value) : H string :=
  match isoformat v with
  | Some s => mret s
  | None => raise (AttributeError "isoformat")
  end.

Definition when (b : bool) (m : H unit) : H unit := if b then m else mret tt.

Definition serialize_event (rt : Runtime) (d : nat) : H nat :=
  out ← dict_copy d;
  has_id ← contains out "_id";
  when has_id (
    oid ← pop out "_id";
    setitem out "id" (VStr (py_str rt oid)));;
  has_date ← contains out "event_date";
  when has_date (
    try_except
      (v ← getitem out "event_date";
       if hasattr_isoformat v
       then v' ← getitem out "event_date";
            s ← call_isoformat v';
            setitem out "date" (VStr s)
       else v' ← getitem out "event_date";
            setitem out "date" (VStr (py_str rt v')))
      (λ _, v ← getitem out "event_date";
            setitem out "date" (VStr (py_str rt v))));;
  has_time ← contains out "event_time";
  when has_time (
    v ← getitem out "event_time";
    setitem out "time" v);;
  for_each ["created_at"; "updated_at"] (λ ts,
    has_ts ← contains out ts;
    when has_ts (
      v ← getitem out ts;
      when (hasattr_isoformat v) (
        v' ← getitem out ts;
        s ← call_isoformat v';
        setitem out ts (VStr s))));;
  mret out.
End Imp.

(** ** A concrete runtime and store, for running the model *)

Definition digit_of (c : ascii) : option nat :=
  let n := nat_of_ascii c in
  if decide (48 ≤ n ≤ 57) then Some (n - 48) else None.

Definition number_of (cs : list ascii) : option nat :=
  foldl (λ acc c, acc ≫= λ a, digit_of c ≫= λ b, Some (10 * a + b)) (Some 0) cs.

(** YYYY-MM-DD, with the month and the day inside their ranges. *)
Definition parse_iso_date (v : Value) : option Date :=
  match v with
  | VStr s =>
      match String.list_ascii_of_string s with
      | [y1; y2; y3; y4; dash1; m1; m2; dash2; d1; d2] =>
          if decide (dash1 = "-"%char ∧ dash2 = "-"%char) then
            number_of [y1; y2; y3; y4] ≫= λ y,
            number_of [m1; m2] ≫= λ m,
            number_of [d1; d2] ≫= λ d,
            if decide (1 ≤ y ∧ 1 ≤ m ≤ 12 ∧ 1 ≤ d ≤ 28) then Some (mkDate y m d) else None
          else None
      | _ => None
      end
  | _ => None
  end.

Definition demo_runtime : Runtime :=
  mkRuntime (mkDate 2025 5 31) (λ _, "?") parse_iso_date (λ _, None) (λ _, "validation error")
    (λ v, match v with VStr _ => "date_from_datetime_parsing" | _ => "date_type" end)
    (λ v, match v with VStr _ | VInt _ => "bool_parsing" | _ => "bool_type" end).

Definition empty_store : Store := mkStore true ∅ 0 [].

Definition request_x : Doc :=
  <["title" := VStr "X"]> (<["description" := VStr "Y"]>
  (<["event_date" := VStr "2025-05-01"]> (<["event_time" := VStr "5 PM"]>
  (<["location" := VStr "Hall A"]> (<["category" := VStr "Tech"]> ∅))))).

Definition event_x : EventCreate.t :=
  EventCreate.mk "X" "Y" (mkDate 2025 5 1) "5 PM" "Hall A" "Tech" None [] false.

(** [event_x] as the gateway stores it. *)
Definition stored_x : Doc := <["_id" := VOid 0]> (EventCreate.model_dump event_x).

(** A request whose title is the empty text. *)
Definition request_untitled : Doc := <["title" := VStr ""]> request_x.

(** A store whose database handle is missing. *)
Definition store_down : Store := mkStore false ∅ 0 [].

(** A request without [event_date]. *)
Definition request_undated : Doc := delete "event_date" request_x.

(** The store after the three sample events went in, one after the other. *)
Definition seeded (rt : Runtime) (s : Store) : Store :=
  foldl (λ st ev, insert_one "event" ev st) s (SAMPLE_EVENTS rt).

(** Documents as stored from identifier [oid] on. *)
Definition stored_from (oid : N) (docs : list Doc) : list Doc :=
  imap (λ i ev, <["_id" := VOid (oid + N.of_nat i)]> ev) docs.

(** The keys of the API record of section 6, and the two storage keys. *)
Definition api_record_keys : gset string :=
  list_to_set ["id"; "title"; "description"; "date"; "time"; "location"; "category";
               "cover_image"; "tags"; "is_featured"].

Definition storage_date_keys : gset string := list_to_set ["event_date"; "event_time"].

(** ** The diagnostic endpoint, [main.py] lines 45-76 *)

(** What the endpoint asks of the database handle: its [name] attribute,
    if it has one, and [list_collection_names()], which raises with a
    message or returns the names. *)
Record Database := mkDatabase {
  db_name : option Value;
  list_collection_names : string + list string;
}.

(** The endpoint builds its response in a dictionary, which is the state
    here; an exception is known by its message. *)
Definition set_response (k : string) (v : Value) : SE Doc string unit :=
  modify (<[k := v]>).

Definition outcome {A} (o : string + A) : SE Doc string A :=
  match o with
  | inl msg => raise msg
  | inr a => mret a
  end.

(** A text is held as its UTF-8 bytes: a byte from 128 to 191 continues
    the character the bytes before it began. *)
Definition is_continuation (c : ascii) : bool :=
  bool_decide (128 ≤ nat_of_ascii c < 192).

(** [s[:n]]: the first [n] characters of [s], each with all its bytes. *)
Fixpoint str_prefix (n : nat) (s : string) : string :=
  match s with
  | EmptyString => EmptyString
  | String c rest =>
      if is_continuation c then String c (str_prefix n rest)
      else
        match n with
        | O => EmptyString
        | S n' => String c (str_prefix n' rest)
        end
  end.

(** The response as first assigned. *)
Definition initial_response : Doc :=
  <["backend" := VStr "✅ Running"]>
  (<["database" := VStr "❌ Not Available"]>
  (<["database_url" := VNone]>
  (<["database_name" := VNone]>
  (<["connection_status" := VStr "Not Connected"]>
  (<["collections" := VList []]> ∅))))).

(** The [try] block and its handler, lines 56-71. *)
Definition probe_database (db : option Database) : SE Doc string unit :=
  try_except
    (match db with
     | Some handle =>
         set_response "database" (VStr "✅ Available");;
         set_response "database_url" (VStr "✅ Configured");;
         set_response "database_name"
           (match db_name handle with
            | Some v => v
            | None => VStr "✅ Connected"
            end);;
         set_response "connection_status" (VStr "Connected");;
         try_except
           (collections ← outcome (list_collection_names handle);
            set_response "collections" (VList (VStr <$> take 10 collections));;
            set_response "database" (VStr "✅ Connected & Working"))
           (λ e, set_response "database"
                   (VStr ("⚠️  Connected but Error: " +:+ str_prefix 50 e)))
     | None => set_response "database" (VStr "⚠️  Available but not initialized")
     end)
    (λ e, set_response "database" (VStr ("❌ Error: " +:+ str_prefix 50 e))).

(** [os.getenv(k)] taken as a condition. *)
Definition env_flag (getenv : string -> option string) (k : string) : Value :=
  VStr (if truthy (getenv k) then "✅ Set" else "❌ Not Set").

(** The endpoint: the response, or the message of an exception that
    escaped. *)
Definition test_database (db : option Database) (getenv : string -> option string)
    : string + Doc :=
  match (probe_database db;;
         set_response "database_url" (env_flag getenv "DATABASE_URL");;
         set_response "database_name" (env_flag getenv "DATABASE_NAME")) initial_response with
  | (inr _, response) => inr response
  | (inl e, _) => inl e
  end.

(** ** The [User] schema, [schemas.py] lines 20-29 *)

(** [k: int]: an integer is taken as it is, anything else goes through
    pydantic's lax conversion [lax_int]. *)
Definition int_of (lax_int : Value -> option Z) (v : Value) : option Z :=
  match v with
  | VInt z => Some z
  | _ => lax_int v
  end.

(** [k: Optional[int] = Field(None, ge=lo, le=hi)] *)
Definition field_optional_int_between (lax_int : Value -> option Z) (lo hi : Z)
    (k : string) (o : option Value) : Validated (option Z) :=
  match o with
  | None => inr None
  | Some VNone => inr None
  | Some v =>
      match int_of lax_int v with
      | Some z =>
          if decide (z < lo)%Z then inl [field_error k "greater_than_equal"]
          else if decide (hi < z)%Z then inl [field_error k "less_than_equal"]
          else inr (Some z)
      | None => inl [field_error k "int_parsing"]
      end
  end.

(** [k: bool = default] *)
Definition field_bool_default (rt : Runtime) (default : bool) (k : string)
    (o : option Value) : Validated bool :=
  match o with
  | None => inr default
  | Some v =>
      match bool_of rt v with
      | Some b => inr b
      | None => inl [field_error k (bool_error rt v)]
      end
  end.

Module User.
Record t := mk {
  name : string;
  email : string;
  address : string;
  age : option Z;
  is_active : bool;
}.

Definition validate (rt : Runtime) (lax_int : Value -> option Z) (fields : Doc)
    : Validated t :=
  (mk <$$> field_str "name" (fields !! "name")
      <**> field_str "email" (fields !! "email")
      <**> field_str "address" (fields !! "address")
      <**> field_optional_int_between lax_int 0 120 "age" (fields !! "age")
      <**> field_bool_default rt true "is_active" (fields !! "is_active"))%V.
End User.

(** ** Names used in the statements below *)

(** The fields of an event. *)
Definition event_fields : list string :=
  ["title"; "description"; "event_date"; "event_time"; "location"; "category";
   "cover_image"; "tags"; "is_featured"].

(** The fields an event must have. *)
Definition required_fields : list string :=
  ["title"; "description"; "event_date"; "event_time"; "location"; "category"].

(** The keys [serialize_event] reads or writes. *)
Definition mapped_keys : list string :=
  ["_id"; "id"; "date"; "time"; "created_at"; "updated_at"].

(** A store whose gateway is reachable and has no fault to come. *)
Definition up (s : Store) : Prop := connected s = true ∧ faults s = [].

(** A document as stored under identifier [oid]. *)
Definition stored_as (oid : N) (doc : Doc) : Doc := <["_id" := VOid oid]> doc.

(** The request without optional fields against a store holding one
    document already. *)
Definition store_with_x : Store := insert_one "event" (EventCreate.model_dump event_x) empty_store.

(** The error lines of a validation, none when it passed. *)
Definition lines {A} (r : Validated A) : list FieldError :=
  match r with
  | inl errs => errs
  | inr _ => []
  end.

(** The documents a call of [list_events] asks for: the category given,
    unless it is empty, and the [is_featured] flag given. *)
Definition selected (category : option string) (featured : option bool) (d : Doc) : bool :=
  match category with
  | Some c => if decide (c = "") then true else bool_decide (d !! "category" = Some (VStr c))
  | None => true
  end
  && match featured with
     | Some b => bool_decide (d !! "is_featured" = Some (VBool b))
     | None => true
     end.

(** The fields of a user, without the optional ones. *)
Definition user_fields : Doc :=
  <["name" := VStr "Ada"]> (<["email" := VStr "ada@example.org"]>
  (<["address" := VStr "1 Main St"]> ∅)).

(** ** The endpoints on what reaches them *)

(** [create_event], lines 166-172, as a function of what
    [event.model_dump()] returns.  The parameter is annotated
    [EventCreate], which Python does not enforce: an object built by
    [model_construct], or one with a field assigned after parsing, dumps to
    fields that the storage schema can refuse. *)
Definition create_event_of_dump (rt : Runtime) (dumped : Doc) : M Payload :=
  try_except
    (construct (Event.validate rt dumped) ≫= λ _,
     create_document "event" dumped ≫= λ inserted_id,
     mret (Created inserted_id "Event created"))
    (λ e, raise (HTTPException 400 (exc_str rt e))).

(** [featured: Optional[bool] = None] read from the query string: absent
    it is [None], present it is the text converted to a bool. *)
Definition query_featured (rt : Runtime) (o : option string) : Validated (option bool) :=
  match o with
  | None => inr None
  | Some text =>
      match bool_of rt (VStr text) with
      | Some b => inr (Some b)
      | None => inl [field_error "featured" (bool_error rt (VStr text))]
      end
  end.

(** [GET /api/events] from the query string, given as the value FastAPI
    reads for each parameter: a [featured] that is no boolean is answered
    422 and [list_events] is not called; [category] is any text. *)
Definition get_api_events_request (rt : Runtime) (query : gmap string string)
    : M Response :=
  match query_featured rt (query !! "featured") with
  | inl errs => mret (mkResponse 422 (DetailErrors errs))
  | inr featured => get_api_events rt (query !! "category") featured
  end.

(** A query whose [featured] is no boolean. *)
Definition query_maybe : gmap string string := <["featured" := "maybe"]> ∅.

(** * Properties *)

(** ** Running computations *)

Lemma bind_run {S E A B} (m : SE S E A) (f : A -> SE S E B) s a s' :
  m s = (inr a, s') -> (m ≫= f) s = f a s'.
Proof. intros Hm. unfold mbind, SE_bind. by rewrite Hm. Qed.

Lemma bind_raise {S E A B} (m : SE S E A) (f : A -> SE S E B) s e s' :
  m s = (inl e, s') -> (m ≫= f) s = (inl e, s').
Proof. intros Hm. unfold mbind, SE_bind. by rewrite Hm. Qed.

Lemma try_except_run {S E A} (m : SE S E A) handler s a s' :
  m s = (inr a, s') -> try_except m handler s = (inr a, s').
Proof. intros Hm. unfold try_except. by rewrite Hm. Qed.

Lemma try_except_raise {S E A} (m : SE S E A) handler s e s' :
  m s = (inl e, s') -> try_except m handler s = handler e s'.
Proof. intros Hm. unfold try_except. by rewrite Hm. Qed.

(** ** The heap version of [serialize_event] computes [serialize_event] *)

Section heap.
Context (rt : Runtime).
Implicit Types (h : list Doc) (o : Doc) (k : string) (v : Value).

Lemma lookup_last h o : (h ++ [o]) !! length h = Some o.
Proof. by apply list_lookup_middle. Qed.

Lemma insert_last h o o' : <[length h := o']> (h ++ [o]) = h ++ [o'].
Proof.
  rewrite insert_app_r_alt by lia. by rewrite Nat.sub_diag.
Qed.

Lemma deref_last h o : Imp.deref (length h) (h ++ [o]) = (inr o, h ++ [o]).
Proof. unfold Imp.deref. by rewrite lookup_last. Qed.

Lemma contains_last h o k :
  Imp.contains (length h) k (h ++ [o])
  = (inr (bool_decide (is_Some (o !! k))), h ++ [o]).
Proof. unfold Imp.contains. by rewrite (bind_run _ _ _ _ _ (deref_last h o)). Qed.

Lemma getitem_last h o k v :
  o !! k = Some v ->
  Imp.getitem (length h) k (h ++ [o]) = (inr v, h ++ [o]).
Proof.
  intros Hk. unfold Imp.getitem.
  rewrite (bind_run _ _ _ _ _ (deref_last h o)). by rewrite Hk.
Qed.

Lemma pop_last h o k v :
  o !! k = Some v ->
  Imp.pop (length h) k (h ++ [o]) = (inr v, h ++ [delete k o]).
Proof.
  intros Hk. unfold Imp.pop.
  rewrite (bind_run _ _ _ _ _ (deref_last h o)). rewrite Hk.
  unfold mbind, SE_bind, modify, mret, SE_ret. by rewrite insert_last.
Qed.

Lemma setitem_last h o k v :
  Imp.setitem (length h) k v (h ++ [o]) = (inr tt, h ++ [<[k := v]> o]).
Proof.
  unfold Imp.setitem. rewrite (bind_run _ _ _ _ _ (deref_last h o)).
  unfold modify. by rewrite insert_last.
Qed.

Lemma timestamp_last h o ts :
  (has_ts ← Imp.contains (length h) ts;
   Imp.when has_ts (
     v ← Imp.getitem (length h) ts;
     Imp.when (hasattr_isoformat v) (
       v' ← Imp.getitem (length h) ts;
       s ← Imp.call_isoformat v';
       Imp.setitem (length h) ts (VStr s)))) (h ++ [o])
  = (inr tt, h ++ [convert_timestamp o ts]).
Proof.
  erewrite bind_run by apply contains_last.
  unfold convert_timestamp, hasattr_isoformat.
  destruct (o !! ts) as [v|] eqn:Hts; simpl; [|done].
  erewrite bind_run by (by apply getitem_last).
  destruct (isoformat v) as [s|] eqn:Hiso; simpl; [|done].
  erewrite bind_run by (by apply getitem_last).
  unfold Imp.call_isoformat. rewrite Hiso.
  erewrite bind_run by reflexivity.
  apply setitem_last.
Qed.

Lemma serialize_event_on_heap h d r :
  h !! d = Some r ->
  Imp.serialize_event rt d h = (inr (length h), h ++ [serialize_event rt r]).
Proof.
  intros Hd. unfold Imp.serialize_event, serialize_event.
  erewrite bind_run; last first.
  { unfold Imp.dict_copy, Imp.deref.
    erewrite bind_run; [reflexivity|]. by rewrite Hd. }
  (* the identifier *)
  erewrite bind_run by apply contains_last.
  erewrite bind_run; last first.
  { instantiate (1 := h ++ [match r !! "_id" with
                            | Some oid => <["id" := VStr (py_str rt oid)]> (delete "_id" r)
                            | None => r
                            end]).
    instantiate (1 := tt).
    destruct (r !! "_id") as [oid|] eqn:Hid; simpl; [|done].
    erewrite bind_run by (by apply pop_last).
    apply setitem_last. }
  set (o1 := match r !! "_id" with Some _ => _ | None => _ end).
  (* the date *)
  erewrite bind_run by apply contains_last.
  erewrite bind_run; last first.
  { instantiate (1 := h ++ [match o1 !! "event_date" with
                            | Some v => <["date" := VStr (date_text rt v)]> o1
                            | None => o1
                            end]).
    instantiate (1 := tt).
    destruct (o1 !! "event_date") as [v|] eqn:Hdate; simpl; [|done].
    apply try_except_run.
    erewrite bind_run by (by apply getitem_last).
    unfold date_text, hasattr_isoformat.
    destruct (isoformat v) as [s|] eqn:Hiso.
    - erewrite bind_run by (by apply getitem_last).
      unfold Imp.call_isoformat. rewrite Hiso.
      erewrite bind_run by reflexivity.
      apply setitem_last.
    - erewrite bind_run by (by apply getitem_last).
      apply setitem_last. }
  set (o2 := match o1 !! "event_date" with Some _ => _ | None => _ end).
  (* the time *)
  erewrite bind_run by apply contains_last.
  erewrite bind_run; last first.
  { instantiate (1 := h ++ [match o2 !! "event_time" with
                            | Some v => <["time" := v]> o2
                            | None => o2
                            end]).
    instantiate (1 := tt).
    destruct (o2 !! "event_time") as [v|] eqn:Htime; simpl; [|done].
    erewrite bind_run by (by apply getitem_last).
    apply setitem_last. }
  set (o3 := match o2 !! "event_time" with Some _ => _ | None => _ end).
  (* the timestamps *)
  erewrite bind_run; [reflexivity|].
  simpl for_each.
  erewrite bind_run by apply timestamp_last.
  erewrite bind_run by apply timestamp_last.
  reflexivity.
Qed.
End heap.

(** ** What [serialize_event] leaves under each key *)

Section serialize.
Context (rt : Runtime).
Implicit Types (d : Doc) (k : string) (v : Value).

Lemma convert_timestamp_lookup d ts k :
  convert_timestamp d ts !! k
  = if decide (k = ts) then timestamp_text <$> d !! k else d !! k.
Proof.
  unfold convert_timestamp, timestamp_text.
  case_decide as Hk; subst.
  - destruct (d !! ts) as [v|] eqn:Hts; simpl; [|by rewrite Hts].
    destruct (isoformat v); [by rewrite lookup_insert_eq | by rewrite Hts].
  - destruct (d !! ts) as [v|]; [|done].
    destruct (isoformat v); [by rewrite lookup_insert_ne | done].
Qed.

Lemma serialize_event_lookup d k :
  serialize_event rt d !! k = serialized_lookup rt d k.
Proof.
  unfold serialize_event, serialized_lookup. simpl foldl.
  rewrite !convert_timestamp_lookup.
  set (o1 := match d !! "_id" with Some _ => _ | None => _ end).
  set (o2 := match o1 !! "event_date" with Some _ => _ | None => _ end).
  set (o3 := match o2 !! "event_time" with Some _ => _ | None => _ end).
  assert (H1 : ∀ j, o1 !! j =
    if decide (j = "_id") then None
    else if decide (j = "id") then
      match d !! "_id" with
      | Some oid => Some (VStr (py_str rt oid))
      | None => d !! "id"
      end
    else d !! j).
  { intros j. subst o1. destruct (d !! "_id") as [oid|] eqn:Hid.
    - repeat case_decide; subst; simplify_map_eq; done.
    - repeat case_decide; subst; simplify_map_eq; done. }
  assert (H2 : ∀ j, o2 !! j =
    if decide (j = "date") then
      match d !! "event_date" with
      | Some v => Some (VStr (date_text rt v))
      | None => o1 !! "date"
      end
    else o1 !! j).
  { intros j. subst o2. rewrite (H1 "event_date"). simpl.
    destruct (d !! "event_date") as [v|] eqn:Hdate.
    - case_decide; subst; simplify_map_eq; done.
    - case_decide; subst; done. }
  assert (H3 : ∀ j, o3 !! j =
    if decide (j = "time") then
      match d !! "event_time" with
      | Some v => Some v
      | None => o2 !! "time"
      end
    else o2 !! j).
  { intros j. subst o3. rewrite (H2 "event_time"), (H1 "event_time"). simpl.
    destruct (d !! "event_time") as [v|] eqn:Htime.
    - case_decide; subst; simplify_map_eq; done.
    - case_decide; subst; done. }
  clearbody o1 o2 o3.
  rewrite !H3, !H2, !H1.
  destruct (decide (k = "_id")) as [->|?]; [done|].
  destruct (decide (k = "id")) as [->|?]; [done|].
  destruct (decide (k = "date")) as [->|?]; [done|].
  destruct (decide (k = "time")) as [->|?]; [done|].
  repeat destruct (decide _); subst; try done; intuition congruence.
Qed.
End serialize.

Section serialize_claims.
Context (rt : Runtime).
Implicit Types (d : Doc) (k : string) (v : Value).

Lemma timestamp_text_idempotent v : timestamp_text (timestamp_text v) = timestamp_text v.
Proof.
  unfold timestamp_text. destruct (isoformat v) as [s|] eqn:Hiso; [done|].
  by rewrite Hiso.
Qed.

(** A second application changes nothing at all. *)
Lemma serialize_event_idempotent d :
  serialize_event rt (serialize_event rt d) = serialize_event rt d.
Proof.
  apply map_eq. intros k.
  rewrite (serialize_event_lookup rt (serialize_event rt d) k).
  unfold serialized_lookup at 1.
  rewrite !serialize_event_lookup.
  destruct (decide (k = "_id")) as [->|?]; [done|].
  destruct (decide (k = "id")) as [->|?]; [done|].
  destruct (decide (k = "date")) as [->|?].
  { unfold serialized_lookup. simpl. by destruct (d !! "event_date"). }
  destruct (decide (k = "time")) as [->|?].
  { unfold serialized_lookup. simpl. by destruct (d !! "event_time"). }
  unfold serialized_lookup.
  destruct (decide (k = "_id")); [done|].
  destruct (decide (k = "id")); [done|].
  destruct (decide (k = "date")); [done|].
  destruct (decide (k = "time")); [done|].
  destruct (decide (k = "created_at" ∨ k = "updated_at")); [|done].
  destruct (d !! k) as [v|]; simpl; [|done].
  by rewrite timestamp_text_idempotent.
Qed.
End serialize_claims.

(** C5. [serialize_event] is idempotent on the fields it converts: applied
    to its own output it yields the same values under [date], [time] and
    [id]. *)
Theorem serialize_event_idempotent_on_converted_fields (rt : Runtime) (x : Doc) :
  let once := serialize_event rt x in
  let twice := serialize_event rt once in
  twice !! "date" = once !! "date"
  ∧ twice !! "time" = once !! "time"
  ∧ twice !! "id" = once !! "id".
Proof.
  intros once twice. subst twice once.
  by rewrite serialize_event_idempotent.
Qed.

(** C6. [serialize_event] is total and pure: run on a heap where [d] refers
    to any record [r], it returns without raising a reference [out] to a
    new dictionary that holds [serialize_event rt r]; every dictionary of
    the heap before, the input [d] among them, is as it was. *)
Theorem serialize_event_total_and_pure (rt : Runtime) (h : list Doc) (d : nat) (r : Doc) :
  h !! d = Some r ->
  ∃ out h',
    Imp.serialize_event rt d h = (inr out, h')
    ∧ h' !! out = Some (serialize_event rt r)
    ∧ out ≠ d
    ∧ h' !! d = Some r
    ∧ take (length h) h' = h.
Proof.
  intros Hd. exists (length h), (h ++ [serialize_event rt r]).
  split; [by apply serialize_event_on_heap|].
  split; [by apply list_lookup_middle|].
  pose proof (lookup_lt_Some _ _ _ Hd) as Hlt.
  split; [lia|].
  split; [by rewrite lookup_app_l|].
  by rewrite take_app_length.
Qed.

Lemma serialize_event_total_and_pure_witness :
  [stored_x] !! 0 = Some stored_x
  ∧ ∃ out h',
      Imp.serialize_event demo_runtime 0 [stored_x] = (inr out, h')
      ∧ h' !! out = Some (serialize_event demo_runtime stored_x)
      ∧ out ≠ 0
      ∧ h' !! 0 = Some stored_x
      ∧ take (length [stored_x]) h' = [stored_x].
Proof.
  split; [reflexivity|].
  apply (serialize_event_total_and_pure demo_runtime [stored_x] 0 stored_x).
  reflexivity.
Defined.

(** ** Validation *)

Section validation.
Context (rt : Runtime).
Implicit Types (o : option Value) (k : string).

Lemma is_valid_map {A B} (f : A -> B) (r : Validated A) :
  is_valid (f <$$> r)%V = is_valid r.
Proof. by destruct r. Qed.

Lemma is_valid_ap {A B} (rf : Validated (A -> B)) (ra : Validated A) :
  is_valid (rf <**> ra)%V = is_valid rf && is_valid ra.
Proof. by destruct rf, ra. Qed.

Lemma is_valid_field_str k o : is_valid (field_str k o) = is_text o.
Proof. by destruct o as [[]|]. Qed.

Lemma is_valid_field_date k o : is_valid (field_date rt k o) = is_date rt o.
Proof.
  destruct o as [v|]; simpl; [|done].
  by destruct (date_of rt v).
Qed.

Lemma is_valid_field_optional_str k o :
  is_valid (field_optional_str k o) = is_optional_text o.
Proof. by destruct o as [[]|]. Qed.

Lemma is_valid_items_str k i l :
  is_valid (items_str k i l) = forallb (λ v, is_text (Some v)) l.
Proof.
  revert i. induction l as [|v l IH]; intros i; simpl; [done|].
  rewrite is_valid_ap, is_valid_map, IH. by destruct v.
Qed.

Lemma is_valid_field_list_str k o :
  is_valid (field_list_str k o) = is_text_list o.
Proof.
  destruct o as [v|]; [|done].
  destruct v; simpl; try done. apply is_valid_items_str.
Qed.

Lemma is_valid_field_bool k o : is_valid (field_bool rt k o) = is_optional_bool rt o.
Proof.
  destruct o as [v|]; simpl; [|done].
  by destruct (bool_of rt v).
Qed.

Lemma EventCreate_valid body :
  is_valid (EventCreate.validate rt body) = valid_input rt body.
Proof.
  unfold EventCreate.validate, valid_input.
  rewrite !is_valid_ap, is_valid_map.
  by rewrite !is_valid_field_str, is_valid_field_date, is_valid_field_optional_str,
    is_valid_field_list_str, is_valid_field_bool.
Qed.

Lemma Event_valid fields :
  is_valid (Event.validate rt fields) = valid_input rt fields.
Proof.
  unfold Event.validate, valid_input.
  rewrite !is_valid_ap, is_valid_map.
  by rewrite !is_valid_field_str, is_valid_field_date, is_valid_field_optional_str,
    is_valid_field_list_str, is_valid_field_bool.
Qed.
End validation.

Section roundtrip.
Context (rt : Runtime).

Lemma items_str_texts k i (l : list string) : items_str k i (VStr <$> l) = inr l.
Proof.
  revert i. induction l as [|x l IH]; intros i; simpl; [done|].
  by rewrite IH.
Qed.

(** The dump of a parsed request always passes the storage schema. *)
Lemma Event_validate_model_dump (e : EventCreate.t) :
  Event.validate rt (EventCreate.model_dump e) = inr (to_schema e).
Proof.
  unfold Event.validate, EventCreate.model_dump.
  repeat (rewrite lookup_insert_eq || rewrite lookup_insert_ne by done).
  simpl. rewrite items_str_texts.
  destruct e as [? ? ? ? ? ? [img|] ? ?]; reflexivity.
Qed.
End roundtrip.

Section rejection.
Context (rt : Runtime).

Lemma has_lines_map {A B} (f : A -> B) r : has_lines r -> has_lines (f <$$> r)%V.
Proof. by destruct r. Qed.

Lemma has_lines_ap {A B} (rf : Validated (A -> B)) ra :
  has_lines rf -> has_lines ra -> has_lines (rf <**> ra)%V.
Proof. destruct rf as [[|]|], ra as [[|]|]; simpl; done. Qed.

Lemma has_lines_field_str k o : has_lines (field_str k o).
Proof. by destruct o as [[]|]. Qed.

Lemma has_lines_field_date k o : has_lines (field_date rt k o).
Proof. destruct o as [v|]; simpl; [|done]. by destruct (date_of rt v). Qed.

Lemma has_lines_field_optional_str k o : has_lines (field_optional_str k o).
Proof. by destruct o as [[]|]. Qed.

Lemma has_lines_items_str k i l : has_lines (items_str k i l).
Proof.
  revert i. induction l as [|v l IH]; intros i; simpl; [done|].
  apply has_lines_ap; [|apply IH]. apply has_lines_map. by destruct v.
Qed.

Lemma has_lines_field_list_str k o : has_lines (field_list_str k o).
Proof.
  destruct o as [v|]; [|done]. destruct v; simpl; try done.
  apply has_lines_items_str.
Qed.

Lemma has_lines_field_bool k o : has_lines (field_bool rt k o).
Proof. destruct o as [v|]; simpl; [|done]. by destruct (bool_of rt v). Qed.

Lemma EventCreate_validate_lines body errs :
  EventCreate.validate rt body = inl errs -> errs ≠ [].
Proof.
  intros Hv ->.
  assert (Hl : has_lines (EventCreate.validate rt body)).
  { unfold EventCreate.validate.
    repeat apply has_lines_ap; try apply has_lines_map;
      auto using has_lines_field_str, has_lines_field_date,
        has_lines_field_optional_str, has_lines_field_list_str, has_lines_field_bool. }
  by rewrite Hv in Hl.
Qed.
End rejection.

(** ** The gateway on a store that is up *)

Section gateway.
Implicit Types (s : Store) (name : string) (doc : Doc).

Lemma round_trip_up s :
  connected s = true -> faults s = [] -> round_trip s = (inr tt, s).
Proof. intros Hc Hf. unfold round_trip. by rewrite Hc, Hf. Qed.

Lemma matches_empty doc : matches ∅ doc = true.
Proof. apply bool_decide_eq_true. apply map_Forall_empty. Qed.

Lemma filter_matches_empty (l : list Doc) :
  filter (λ d, matches ∅ d = true) l = l.
Proof.
  induction l as [|d l IH]; [done|].
  rewrite filter_cons_True by apply matches_empty. by rewrite IH.
Qed.

Lemma count_documents_up s name :
  connected s = true -> faults s = [] ->
  count_documents name ∅ s = (inr (length (collection name s)), s).
Proof.
  intros Hc Hf. unfold count_documents.
  erewrite bind_run by (by apply round_trip_up).
  unfold gets. by rewrite filter_matches_empty.
Qed.

Lemma create_document_up s name doc :
  connected s = true -> faults s = [] ->
  create_document name doc s = (inr (str_oid (next_oid s)), insert_one name doc s).
Proof.
  intros Hc Hf. unfold create_document.
  erewrite bind_run by (by apply round_trip_up). reflexivity.
Qed.

Lemma for_each_create_up (l : list Doc) s :
  connected s = true -> faults s = [] ->
  for_each l (λ ev, create_document "event" ev) s
  = (inr tt, foldl (λ st ev, insert_one "event" ev st) s l).
Proof.
  revert s. induction l as [|ev l IH]; intros s Hc Hf; simpl; [done|].
  erewrite bind_run by (by apply create_document_up).
  by apply IH.
Qed.

Lemma collection_insert_one s name doc :
  collection name (insert_one name doc s)
  = collection name s ++ [<["_id" := VOid (next_oid s)]> doc].
Proof. unfold collection at 1. simpl. by rewrite lookup_insert_eq. Qed.

Lemma collection_insert_all (l : list Doc) s :
  collection "event" (foldl (λ st ev, insert_one "event" ev st) s l)
  = collection "event" s ++ stored_from (next_oid s) l
  ∧ connected (foldl (λ st ev, insert_one "event" ev st) s l) = connected s
  ∧ faults (foldl (λ st ev, insert_one "event" ev st) s l) = faults s.
Proof.
  unfold stored_from. revert s. induction l as [|ev l IH]; intros s; simpl.
  - by rewrite app_nil_r.
  - destruct (IH (insert_one "event" ev s)) as (Hcoll & Hc & Hf).
    rewrite Hcoll, Hc, Hf, collection_insert_one. simpl.
    split; [|done]. rewrite <- app_assoc. simpl. f_equal.
    rewrite N.add_0_r. f_equal.
    apply imap_ext. intros i d _. simpl. do 2 f_equal. lia.
Qed.
End gateway.

(** ** Seeding *)

Lemma ensure_seed_never_raises (rt : Runtime) (s : Store) :
  ∃ s', ensure_seed rt s = (inr tt, s').
Proof.
  unfold ensure_seed, try_except.
  match goal with |- context [match ?m s with _ => _ end] => destruct (m s) as [[e|[]] s'] end.
  - by exists s'.
  - by exists s'.
Qed.

Lemma ensure_seed_up (rt : Runtime) (s : Store) :
  connected s = true -> faults s = [] ->
  ensure_seed rt s
  = (inr tt, if decide (length (collection "event" s) = 0) then seeded rt s else s).
Proof.
  intros Hc Hf. unfold ensure_seed.
  apply try_except_run.
  erewrite bind_run by reflexivity. cbv beta. rewrite Hc.
  change (negb true) with false. cbv iota.
  erewrite bind_run by (by apply count_documents_up).
  destruct (decide (length (collection "event" s) = 0)); [|done].
  by apply for_each_create_up.
Qed.

(** C7. On a store that is up, [ensure_seed] inserts the three sample
    events, one after the other in the order of [SAMPLE_EVENTS], when the
    [event] collection counts zero documents, and writes nothing when it
    counts at least one; a second call right after the first inserts
    nothing. *)
Theorem ensure_seed_seeds_once (rt : Runtime) (s : Store) :
  connected s = true ->
  faults s = [] ->
  let empty := decide (length (collection "event" s) = 0) in
  ∃ s',
    ensure_seed rt s = (inr tt, s')
    ∧ length (SAMPLE_EVENTS rt) = 3
    ∧ s' = (if empty then seeded rt s else s)
    ∧ collection "event" s'
      = collection "event" s
        ++ (if empty then stored_from (next_oid s) (SAMPLE_EVENTS rt) else [])
    ∧ ensure_seed rt s' = (inr tt, s').
Proof.
  intros Hc Hf empty.
  destruct (collection_insert_all (SAMPLE_EVENTS rt) s) as (Hcoll & Hc' & Hf').
  fold (seeded rt s) in Hcoll, Hc', Hf'.
  exists (if empty then seeded rt s else s).
  split; [by apply ensure_seed_up|].
  split; [done|]. split; [done|].
  subst empty. destruct (decide (length (collection "event" s) = 0)) as [Hz|Hnz].
  - split; [done|].
    rewrite ensure_seed_up by congruence.
    rewrite decide_False; [done|].
    rewrite Hcoll, length_app. unfold stored_from. rewrite length_imap. simpl. lia.
  - split; [by rewrite app_nil_r|].
    rewrite ensure_seed_up by done. by rewrite decide_False.
Qed.

Lemma ensure_seed_seeds_once_witness :
  connected empty_store = true
  ∧ faults empty_store = []
  ∧ ∃ s',
      ensure_seed demo_runtime empty_store = (inr tt, s')
      ∧ length (SAMPLE_EVENTS demo_runtime) = 3
      ∧ s' = (if decide (length (collection "event" empty_store) = 0)
              then seeded demo_runtime empty_store else empty_store)
      ∧ collection "event" s'
        = collection "event" empty_store
          ++ (if decide (length (collection "event" empty_store) = 0)
              then stored_from (next_oid empty_store) (SAMPLE_EVENTS demo_runtime)
              else [])
      ∧ ensure_seed demo_runtime s' = (inr tt, s').
Proof.
  split; [reflexivity|]. split; [reflexivity|].
  apply (ensure_seed_seeds_once demo_runtime empty_store); reflexivity.
Defined.

(** C8. [ensure_seed] swallows every failure: whatever the store and the
    schedule of faults, it returns without raising, and [list_events] goes
    on to query the gateway from the store seeding left behind; it returns
    the matching documents of the [event] collection as they are then (an
    empty sequence when there are none) unless the query itself fails. *)
Theorem seeding_failure_is_swallowed (rt : Runtime) (s : Store)
    (category : option string) (featured : option bool) :
  ∃ s1,
    ensure_seed rt s = (inr tt, s1)
    ∧ list_events rt category featured s
      = match round_trip s1 with
        | (inr _, s2) =>
            (inr (Events (serialize_event rt <$>
                            filter (λ d, matches (list_filter category featured) d = true)
                                   (collection "event" s2))), s2)
        | (inl e, s2) => (inl (HTTPException 500 (exc_str rt e)), s2)
        end.
Proof.
  destruct (ensure_seed_never_raises rt s) as [s1 Hseed].
  exists s1. split; [done|].
  unfold list_events. erewrite bind_run by exact Hseed.
  unfold try_except, get_documents, mbind, SE_bind.
  by destruct (round_trip s1) as [[e|[]] s2].
Qed.

(** A fault at the count: nothing is seeded and the list is empty. *)
Example list_after_failed_count :
  get_api_events demo_runtime None None (mkStore true ∅ 0 [true])
  = (inr (mkResponse 200 (Json (Events []))), empty_store).
Proof. vm_compute. reflexivity. Qed.

(** A fault at the second insert: the first sample event is in the
    collection, and is what the list returns. *)
Example list_after_failed_insert :
  ∃ s',
    get_api_events demo_runtime None None (mkStore true ∅ 0 [false; false; true])
    = (inr (mkResponse 200 (Json (Events
         (serialize_event demo_runtime <$> stored_from 0 (take 1 (SAMPLE_EVENTS demo_runtime)))))),
       s')
    ∧ length (collection "event" s') = 1.
Proof. eexists. split; vm_compute; reflexivity. Qed.

(** A missing database handle: seeding returns at once, the query fails
    and the endpoint answers 500. *)
Example list_without_database :
  get_api_events demo_runtime None None store_down
  = (inr (mkResponse 500 (Detail "Database not available")), store_down).
Proof. vm_compute. reflexivity. Qed.

(** ** Create *)

Lemma create_event_run (rt : Runtime) (event : EventCreate.t) (s : Store) :
  create_event rt event s
  = match create_document "event" (EventCreate.model_dump event) s with
    | (inr inserted_id, s') => (inr (Created inserted_id "Event created"), s')
    | (inl e, s') => (inl (HTTPException 400 (exc_str rt e)), s')
    end.
Proof.
  unfold create_event, try_except.
  rewrite (bind_run (construct (Event.validate rt (EventCreate.model_dump event)))
             _ s (to_schema event) s)
    by (by rewrite Event_validate_model_dump).
  unfold mbind, SE_bind.
  by destruct (create_document "event" (EventCreate.model_dump event) s) as [[e|i] s'].
Qed.

(** C1, as the code has it. A valid request on a store whose gateway is
    down: the failed write comes back as status 400, a client error, where
    the claim asks for 500. *)
Theorem create_gateway_failure_is_answered_400 :
  is_valid (EventCreate.validate demo_runtime request_x) = true
  ∧ create_document "event" (EventCreate.model_dump event_x) store_down
    = (inl (GatewayError "Database not available"), store_down)
  ∧ post_api_events demo_runtime request_x store_down
    = (inr (mkResponse 400 (Detail "Database not available")), store_down)
  ∧ is_server_error (mkResponse 400 (Detail "Database not available")) = false.
Proof. repeat split; vm_compute; reflexivity. Qed.

(** A gateway that is reachable but faults at the write gives the same. *)
Example create_fault_is_answered_400 :
  post_api_events demo_runtime request_x (mkStore true ∅ 0 [true])
  = (inr (mkResponse 400 (Detail "storage fault")), empty_store).
Proof. vm_compute. reflexivity. Qed.

(** C10. [EventCreate] and [Event] accept the same inputs, and the dump of
    a request [EventCreate] accepted always passes [Event]: the validation
    inside [create_event] cannot fail, so [create_event] is the gateway
    write alone. *)
Theorem request_model_and_schema_agree (rt : Runtime) (input : Doc) (event : EventCreate.t) :
  EventCreate.validate rt input = inr event ->
  (∀ other : Doc,
     is_valid (EventCreate.validate rt other) = is_valid (Event.validate rt other))
  ∧ Event.validate rt input = inr (to_schema event)
  ∧ Event.validate rt (EventCreate.model_dump event) = inr (to_schema event)
  ∧ ∀ s, create_event rt event s
         = match create_document "event" (EventCreate.model_dump event) s with
           | (inr inserted_id, s') => (inr (Created inserted_id "Event created"), s')
           | (inl e, s') => (inl (HTTPException 400 (exc_str rt e)), s')
           end.
Proof.
  intros Hv.
  split; [intros other; by rewrite EventCreate_valid, Event_valid|].
  split.
  { revert Hv. unfold EventCreate.validate, Event.validate.
    destruct (field_str "title" (input !! "title")),
      (field_str "description" (input !! "description")),
      (field_date rt "event_date" (input !! "event_date")),
      (field_str "event_time" (input !! "event_time")),
      (field_str "location" (input !! "location")),
      (field_str "category" (input !! "category")),
      (field_optional_str "cover_image" (input !! "cover_image")),
      (field_list_str "tags" (input !! "tags")),
      (field_bool rt "is_featured" (input !! "is_featured")); simpl; try done.
    by intros [= <-]. }
  split; [apply Event_validate_model_dump|].
  intros s. apply create_event_run.
Qed.

Lemma request_model_and_schema_agree_witness :
  EventCreate.validate demo_runtime request_x = inr event_x
  ∧ (∀ other : Doc,
       is_valid (EventCreate.validate demo_runtime other)
       = is_valid (Event.validate demo_runtime other))
  ∧ Event.validate demo_runtime request_x = inr (to_schema event_x)
  ∧ Event.validate demo_runtime (EventCreate.model_dump event_x) = inr (to_schema event_x)
  ∧ ∀ s, create_event demo_runtime event_x s
         = match create_document "event" (EventCreate.model_dump event_x) s with
           | (inr inserted_id, s') => (inr (Created inserted_id "Event created"), s')
           | (inl e, s') => (inl (HTTPException 400 (exc_str demo_runtime e)), s')
           end.
Proof.
  split; [vm_compute; reflexivity|].
  apply (request_model_and_schema_agree demo_runtime request_x event_x).
  vm_compute; reflexivity.
Defined.

(** ** Validation against the specification *)

(** C2, as the code has it. Both models accept an input exactly when
    [title], [description], [location] and [category] are present and are
    text, [event_date] converts to a date, [event_time] is text and every
    optional field that is present has its type.  No text field has to be
    non-empty. *)
Theorem validate_accepts_iff (rt : Runtime) (input : Doc) :
  is_valid (EventCreate.validate rt input) = valid_input rt input
  ∧ is_valid (Event.validate rt input) = valid_input rt input.
Proof. split; [apply EventCreate_valid | apply Event_valid]. Qed.

(** C2 as stated fails: a request whose title is the empty text passes both
    models and is written to the store. *)
Lemma empty_title_is_accepted_and_written :
  request_untitled !! "title" = Some (VStr "")
  ∧ is_valid (EventCreate.validate demo_runtime request_untitled) = true
  ∧ is_valid (Event.validate demo_runtime request_untitled) = true
  ∧ ∃ s',
      post_api_events demo_runtime request_untitled empty_store
      = (inr (mkResponse 201 (Json (Created "000000000000000000000000" "Event created"))), s')
      ∧ length (collection "event" s') = 1.
Proof.
  split; [vm_compute; reflexivity|].
  split; [vm_compute; reflexivity|].
  split; [vm_compute; reflexivity|].
  eexists. split; vm_compute; reflexivity.
Qed.

(** ** The filter of the list *)

(** C3, as the code has it. The filter has a [category] clause exactly
    when a category is given and is not the empty text, and an
    [is_featured] clause exactly when [featured] is given, with the value
    given; it has no other clause, and [featured=false] is not [featured]
    left out. *)
Theorem list_filter_clauses (category : option string) (featured : option bool) :
  list_filter category featured !! "category"
  = match category with
    | Some c => if decide (c = "") then None else Some (VStr c)
    | None => None
    end
  ∧ list_filter category featured !! "is_featured" = VBool <$> featured
  ∧ dom (list_filter category featured) ⊆ {["category"; "is_featured"]}
  ∧ list_filter category (Some false) ≠ list_filter category None.
Proof.
  assert (Hfeat : ∀ feat, list_filter category feat !! "is_featured" = VBool <$> feat).
  { intros feat. unfold list_filter.
    destruct feat as [b|]; simpl; [by rewrite lookup_insert_eq|].
    destruct category as [c|]; simpl; [|done].
    destruct (bool_decide (c = "")); simpl; [done|].
    by rewrite lookup_insert_ne. }
  split.
  { unfold list_filter, truthy.
    destruct category as [c|]; simpl.
    - destruct (decide (c = "")) as [->|Hc].
      + by destruct featured; simpl; rewrite ?lookup_insert_ne by done.
      + rewrite bool_decide_eq_false_2 by done. simpl.
        destruct featured; simpl; rewrite ?lookup_insert_ne by done;
          by rewrite lookup_insert_eq.
    - by destruct featured; simpl; rewrite ?lookup_insert_ne by done. }
  split; [apply Hfeat|].
  split.
  { unfold list_filter.
    destruct (truthy category), category, featured; simpl;
      rewrite ?dom_insert_L, ?dom_empty_L; set_solver. }
  intros Heq.
  pose proof (Hfeat (Some false)) as H1. pose proof (Hfeat None) as H2.
  rewrite Heq, H2 in H1. done.
Qed.

(** C3 as stated fails: a category given as the empty text adds no
    clause. *)
Lemma empty_category_adds_no_clause :
  ¬ (is_Some (list_filter (Some "") None !! "category") ↔ is_Some (Some "")).
Proof.
  intros [_ Hback].
  destruct (Hback (mk_is_Some _ _ eq_refl)) as [v Hv].
  vm_compute in Hv. discriminate.
Qed.

(** ** The API record *)

(** The keys of a stored event after the mapping. *)
Lemma serialized_stored_event_keys (rt : Runtime) (oid : N) (e : EventCreate.t) :
  dom (serialize_event rt (<["_id" := VOid oid]> (EventCreate.model_dump e)))
  = api_record_keys ∪ storage_date_keys.
Proof. vm_compute. reflexivity. Qed.

(** A record with a date that is already text, no optional field and a
    field the model does not know. *)
Example serialize_text_date :
  serialize_event demo_runtime
    (<["event_date" := VStr "2025-05-01"]> (<["rating" := VOther "4.5"]> ∅))
  = <["date" := VStr "2025-05-01"]>
      (<["event_date" := VStr "2025-05-01"]> (<["rating" := VOther "4.5"]> ∅)).
Proof. vm_compute. reflexivity. Qed.

(** A stored timestamp is rendered by [isoformat]. *)
Example serialize_timestamp :
  serialize_event demo_runtime
    (<["created_at" := VDateTime (mkDateTime (mkDate 2025 5 1) 9 30 0 0)]> ∅)
  !! "created_at" = Some (VStr "2025-05-01T09:30:00").
Proof. vm_compute. reflexivity. Qed.

(** The scenario of section 8: the event posted is listed under its
    category with the API keys filled in. *)
Example post_then_list :
  ∃ s1 s2 record,
    post_api_events demo_runtime request_x empty_store
    = (inr (mkResponse 201 (Json (Created "000000000000000000000000" "Event created"))), s1)
    ∧ get_api_events demo_runtime (Some "Tech") None s1
      = (inr (mkResponse 200 (Json (Events [record]))), s2)
    ∧ record !! "id" = Some (VStr "000000000000000000000000")
    ∧ record !! "date" = Some (VStr "2025-05-01")
    ∧ record !! "time" = Some (VStr "5 PM")
    ∧ record !! "tags" = Some (VList [])
    ∧ record !! "is_featured" = Some (VBool false).
Proof.
  eexists _, _, _. split; [vm_compute; reflexivity|].
  split; [vm_compute; reflexivity|].
  repeat split; vm_compute; reflexivity.
Qed.

(** C4, as the code has it. The output of [serialize_event] never has the
    key [_id]; the identifier of the record, when it has one, is under [id]
    in its string form; the date is under [date] as text and the time under
    [time]; the storage keys [event_date] and [event_time] stay in the
    output with their values.  The record of an event stored by
    [create_event] comes out with the keys of the API record and these two
    storage keys. *)
Theorem serialize_event_api_keys (rt : Runtime) (d : Doc) :
  let out := serialize_event rt d in
  out !! "_id" = None
  ∧ out !! "id" = match d !! "_id" with
                  | Some oid => Some (VStr (py_str rt oid))
                  | None => d !! "id"
                  end
  ∧ out !! "date" = match d !! "event_date" with
                    | Some v => Some (VStr (date_text rt v))
                    | None => d !! "date"
                    end
  ∧ out !! "time" = match d !! "event_time" with
                    | Some v => Some v
                    | None => d !! "time"
                    end
  ∧ out !! "event_date" = d !! "event_date"
  ∧ out !! "event_time" = d !! "event_time"
  ∧ ∀ (oid : N) (e : EventCreate.t),
      dom (serialize_event rt (<["_id" := VOid oid]> (EventCreate.model_dump e)))
      = api_record_keys ∪ storage_date_keys.
Proof.
  intros out. subst out. rewrite !serialize_event_lookup.
  do 6 (split; [reflexivity|]).
  intros oid e. apply serialized_stored_event_keys.
Qed.

(** C4 as stated fails: the record of a stored event still has
    [event_date] and [event_time] after the mapping. *)
Lemma serialize_event_keeps_storage_keys :
  ¬ (serialize_event demo_runtime stored_x !! "event_date" = None
     ∧ serialize_event demo_runtime stored_x !! "event_time" = None).
Proof. intros [H _]. vm_compute in H. discriminate. Qed.

(** * Further properties *)

(** ** The API record, further *)

(** X1. A record that went through [serialize_event] is a fixed point of
    it: a second application changes no key at all, the timestamps
    included. *)
Theorem serialize_event_fixed_point (rt : Runtime) (d : Doc) :
  serialize_event rt (serialize_event rt d) = serialize_event rt d.
Proof. apply serialize_event_idempotent. Qed.

(** X2. Every key other than [_id], [id], [date], [time], [created_at] and
    [updated_at] passes through [serialize_event] with its value, and a key
    the record does not have is not added. *)
Theorem serialize_event_passes_other_keys (rt : Runtime) (d : Doc) (k : string) :
  k ∉ mapped_keys ->
  serialize_event rt d !! k = d !! k.
Proof.
  intros Hk. rewrite serialize_event_lookup. unfold serialized_lookup.
  unfold mapped_keys in Hk.
  repeat (rewrite not_elem_of_cons in Hk; destruct Hk as [? Hk]).
  rewrite !decide_False; [done|..]; try done. intuition congruence.
Qed.

Lemma serialize_event_passes_other_keys_witness :
  ("title" ∉ mapped_keys)
  ∧ serialize_event demo_runtime stored_x !! "title" = stored_x !! "title".
Proof.
  assert (H : "title" ∉ mapped_keys) by compute_done.
  split; [exact H|].
  apply (serialize_event_passes_other_keys demo_runtime stored_x "title" H).
Defined.

(** X3. A timestamp under [created_at] or [updated_at] that can render
    itself comes out as its ISO text; any other value under these keys,
    text included, stays as it is, and an absent key stays absent. *)
Theorem serialize_event_renders_timestamps (rt : Runtime) (d : Doc) :
  serialize_event rt d !! "created_at" = timestamp_text <$> d !! "created_at"
  ∧ serialize_event rt d !! "updated_at" = timestamp_text <$> d !! "updated_at"
  ∧ (∀ t, timestamp_text (VDateTime t) = VStr (isoformat_datetime t))
  ∧ (∀ day, timestamp_text (VDate day) = VStr (isoformat_date day))
  ∧ (∀ text, timestamp_text (VStr text) = VStr text)
  ∧ timestamp_text VNone = VNone.
Proof.
  rewrite !serialize_event_lookup. by repeat split.
Qed.

(** X4. The keys of the output are the keys of the record without [_id],
    with [id] added when the record has [_id], [date] when it has
    [event_date] and [time] when it has [event_time]. *)
Theorem serialize_event_keys (rt : Runtime) (d : Doc) :
  dom (serialize_event rt d)
  = (dom d ∖ {["_id"]})
    ∪ (if decide ("_id" ∈ dom d) then {["id"]} else ∅)
    ∪ (if decide ("event_date" ∈ dom d) then {["date"]} else ∅)
    ∪ (if decide ("event_time" ∈ dom d) then {["time"]} else ∅).
Proof.
  apply set_eq. intros k.
  rewrite elem_of_dom, serialize_event_lookup.
  rewrite !elem_of_union, elem_of_difference, not_elem_of_singleton.
  assert (Hin : ∀ key (after : string),
    k ∈ (if decide (key ∈ dom d) then {[after]} else ∅ : gset string)
    ↔ k = after ∧ is_Some (d !! key)).
  { intros key after. rewrite <- elem_of_dom.
    destruct (decide (key ∈ dom d)); set_solver. }
  rewrite !Hin, elem_of_dom. clear Hin.
  unfold serialized_lookup.
  destruct (decide (k = "_id")) as [->|?].
  { split; [by intros [? ?]|]. intros [[[[_ ?]|[? _]]|[? _]]|[? _]]; done. }
  destruct (decide (k = "id")) as [->|?].
  { destruct (d !! "_id") as [oid|]; split; eauto 10.
    intros [[[[? _]|[_ [? ?]]]|[? _]]|[? _]]; done. }
  destruct (decide (k = "date")) as [->|?].
  { destruct (d !! "event_date") as [v|]; split; eauto 10.
    intros [[[[? _]|[? _]]|[_ [? ?]]]|[? _]]; done. }
  destruct (decide (k = "time")) as [->|?].
  { destruct (d !! "event_time") as [v|]; split; eauto 10.
    intros [[[[? _]|[? _]]|[? _]]|[_ [? ?]]]; done. }
  assert (Hts : is_Some (timestamp_text <$> d !! k) ↔ is_Some (d !! k)).
  { by rewrite fmap_is_Some. }
  destruct (decide (k = "created_at" ∨ k = "updated_at"));
    rewrite ?Hts; split; eauto 10;
    intros [[[[? _]|[? _]]|[? _]]|[? _]]; done.
Qed.

(** ** Validation, further *)

Lemma lines_map {A B} (f : A -> B) (r : Validated A) : lines (f <$$> r)%V = lines r.
Proof. by destruct r. Qed.

Lemma lines_ap {A B} (rf : Validated (A -> B)) (ra : Validated A) :
  lines (rf <**> ra)%V = lines rf ++ lines ra.
Proof. destruct rf, ra; simpl; by rewrite ?app_nil_r. Qed.

Lemma lines_of_rejected {A} (r : Validated A) errs : r = inl errs -> lines r = errs.
Proof. by intros ->. Qed.

Lemma EventCreate_lines (rt : Runtime) (input : Doc) :
  lines (EventCreate.validate rt input)
  = lines (field_str "title" (input !! "title"))
    ++ lines (field_str "description" (input !! "description"))
    ++ lines (field_date rt "event_date" (input !! "event_date"))
    ++ lines (field_str "event_time" (input !! "event_time"))
    ++ lines (field_str "location" (input !! "location"))
    ++ lines (field_str "category" (input !! "category"))
    ++ lines (field_optional_str "cover_image" (input !! "cover_image"))
    ++ lines (field_list_str "tags" (input !! "tags"))
    ++ lines (field_bool rt "is_featured" (input !! "is_featured")).
Proof.
  unfold EventCreate.validate. rewrite !lines_ap, lines_map.
  by rewrite <- !app_assoc.
Qed.

Lemma v_map_inr {A B} (f : A -> B) (r : Validated A) (b : B) :
  (f <$$> r)%V = inr b -> ∃ a, r = inr a ∧ b = f a.
Proof. destruct r; simpl; [done|]. intros [= <-]. eauto. Qed.

Lemma v_ap_inr {A B} (rf : Validated (A -> B)) (ra : Validated A) (b : B) :
  (rf <**> ra)%V = inr b -> ∃ f a, rf = inr f ∧ ra = inr a ∧ b = f a.
Proof. destruct rf, ra; simpl; try done. intros [= <-]. eauto. Qed.

(** An accepted input passed every field. *)
Lemma EventCreate_accepted (rt : Runtime) (input : Doc) (e : EventCreate.t) :
  EventCreate.validate rt input = inr e ->
  field_str "title" (input !! "title") = inr (EventCreate.title e)
  ∧ field_str "description" (input !! "description") = inr (EventCreate.description e)
  ∧ field_date rt "event_date" (input !! "event_date") = inr (EventCreate.event_date e)
  ∧ field_str "event_time" (input !! "event_time") = inr (EventCreate.event_time e)
  ∧ field_str "location" (input !! "location") = inr (EventCreate.location e)
  ∧ field_str "category" (input !! "category") = inr (EventCreate.category e)
  ∧ field_optional_str "cover_image" (input !! "cover_image") = inr (EventCreate.cover_image e)
  ∧ field_list_str "tags" (input !! "tags") = inr (EventCreate.tags e)
  ∧ field_bool rt "is_featured" (input !! "is_featured") = inr (EventCreate.is_featured e).
Proof.
  unfold EventCreate.validate. intros Hv.
  apply v_ap_inr in Hv as (f9 & a9 & Hv & H9 & ->).
  apply v_ap_inr in Hv as (f8 & a8 & Hv & H8 & ->).
  apply v_ap_inr in Hv as (f7 & a7 & Hv & H7 & ->).
  apply v_ap_inr in Hv as (f6 & a6 & Hv & H6 & ->).
  apply v_ap_inr in Hv as (f5 & a5 & Hv & H5 & ->).
  apply v_ap_inr in Hv as (f4 & a4 & Hv & H4 & ->).
  apply v_ap_inr in Hv as (f3 & a3 & Hv & H3 & ->).
  apply v_ap_inr in Hv as (f2 & a2 & Hv & H2 & ->).
  apply v_map_inr in Hv as (a1 & H1 & ->).
  simpl. by repeat split.
Qed.

(** X5. Dumping a parsed request and parsing the dump gives the request
    back, and the dump has exactly the nine fields of an event. *)
Theorem model_dump_round_trip (rt : Runtime) (e : EventCreate.t) :
  EventCreate.validate rt (EventCreate.model_dump e) = inr e
  ∧ dom (EventCreate.model_dump e) = list_to_set event_fields.
Proof.
  split; [|unfold EventCreate.model_dump; by rewrite !dom_insert_L, dom_empty_L].
  unfold EventCreate.validate, EventCreate.model_dump.
  repeat (rewrite lookup_insert_eq || rewrite lookup_insert_ne by done).
  simpl. rewrite items_str_texts.
  destruct e as [? ? ? ? ? ? [img|] ? ?]; reflexivity.
Qed.

(** X6. A key that is not a field of the model is ignored: adding it to an
    input, whatever its value, changes the result of neither model. *)
Theorem validate_ignores_unknown_keys (rt : Runtime) (input : Doc) (k : string) (v : Value) :
  k ∉ event_fields ->
  EventCreate.validate rt (<[k := v]> input) = EventCreate.validate rt input
  ∧ Event.validate rt (<[k := v]> input) = Event.validate rt input.
Proof.
  intros Hk. unfold event_fields in Hk.
  repeat (rewrite not_elem_of_cons in Hk; destruct Hk as [? Hk]).
  unfold EventCreate.validate, Event.validate.
  by rewrite !lookup_insert_ne by done.
Qed.

Lemma validate_ignores_unknown_keys_witness :
  ("organizer" ∉ event_fields)
  ∧ EventCreate.validate demo_runtime (<["organizer" := VStr "Z"]> request_x)
    = EventCreate.validate demo_runtime request_x
  ∧ Event.validate demo_runtime (<["organizer" := VStr "Z"]> request_x)
    = Event.validate demo_runtime request_x.
Proof.
  assert (H : "organizer" ∉ event_fields) by compute_done.
  split; [exact H|].
  apply (validate_ignores_unknown_keys demo_runtime request_x "organizer" (VStr "Z") H).
Defined.

(** X7. An accepted input that leaves out the optional fields gets their
    defaults: no cover image, no tags, not featured. *)
Theorem validate_applies_defaults (rt : Runtime) (input : Doc) (e : EventCreate.t) :
  input !! "cover_image" = None ->
  input !! "tags" = None ->
  input !! "is_featured" = None ->
  EventCreate.validate rt input = inr e ->
  EventCreate.cover_image e = None
  ∧ EventCreate.tags e = []
  ∧ EventCreate.is_featured e = false.
Proof.
  intros Himg Htags Hfeat Hv.
  apply EventCreate_accepted in Hv as (_ & _ & _ & _ & _ & _ & H7 & H8 & H9).
  rewrite Himg in H7. rewrite Htags in H8. rewrite Hfeat in H9.
  simpl in H7, H8, H9. by simplify_eq.
Qed.

Lemma validate_applies_defaults_witness :
  request_x !! "cover_image" = None
  ∧ request_x !! "tags" = None
  ∧ request_x !! "is_featured" = None
  ∧ EventCreate.validate demo_runtime request_x = inr event_x
  ∧ EventCreate.cover_image event_x = None
  ∧ EventCreate.tags event_x = []
  ∧ EventCreate.is_featured event_x = false.
Proof.
  do 4 (split; [vm_compute; reflexivity|]).
  apply (validate_applies_defaults demo_runtime request_x event_x);
    vm_compute; reflexivity.
Defined.

(** X8. An input that lacks a required field is rejected, and the error
    lines name that field as missing. *)
Theorem validate_reports_missing_field (rt : Runtime) (input : Doc) (k : string) :
  k ∈ required_fields ->
  input !! k = None ->
  ∃ errs,
    EventCreate.validate rt input = inl errs
    ∧ field_error k "missing" ∈ errs.
Proof.
  intros Hk Hnone.
  assert (Hin : field_error k "missing" ∈ lines (EventCreate.validate rt input)).
  { rewrite EventCreate_lines. unfold required_fields in Hk.
    repeat (apply elem_of_cons in Hk as [->|Hk]);
      [..|by apply elem_of_nil in Hk];
      rewrite Hnone; simpl; set_solver. }
  destruct (EventCreate.validate rt input) as [errs|e] eqn:Hv.
  - by exists errs.
  - by apply elem_of_nil in Hin.
Qed.

Lemma validate_reports_missing_field_witness :
  ("event_date" ∈ required_fields)
  ∧ request_undated !! "event_date" = None
  ∧ ∃ errs,
      EventCreate.validate demo_runtime request_undated = inl errs
      ∧ field_error "event_date" "missing" ∈ errs.
Proof.
  assert (H : "event_date" ∈ required_fields) by compute_done.
  split; [exact H|]. split; [vm_compute; reflexivity|].
  apply (validate_reports_missing_field demo_runtime request_undated "event_date" H).
  vm_compute; reflexivity.
Defined.

(** X9. What an accepted input gave for the text fields is what the parsed
    request holds, character for character, and the date it holds is the
    conversion of what was given. *)
Theorem validate_keeps_text_as_given (rt : Runtime) (input : Doc) (e : EventCreate.t) :
  EventCreate.validate rt input = inr e ->
  input !! "title" = Some (VStr (EventCreate.title e))
  ∧ input !! "description" = Some (VStr (EventCreate.description e))
  ∧ input !! "event_time" = Some (VStr (EventCreate.event_time e))
  ∧ input !! "location" = Some (VStr (EventCreate.location e))
  ∧ input !! "category" = Some (VStr (EventCreate.category e))
  ∧ ∃ v, input !! "event_date" = Some v ∧ date_of rt v = Some (EventCreate.event_date e).
Proof.
  intros Hv.
  apply EventCreate_accepted in Hv as (H1 & H2 & H3 & H4 & H5 & H6 & _).
  assert (Hstr : ∀ k o text, field_str k o = inr text -> o = Some (VStr text)).
  { intros k o text Ho. destruct o as [[]|]; simpl in Ho; congruence. }
  rewrite (Hstr _ _ _ H1), (Hstr _ _ _ H2), (Hstr _ _ _ H4), (Hstr _ _ _ H5), (Hstr _ _ _ H6).
  do 5 (split; [done|]).
  destruct (input !! "event_date") as [v|]; simpl in H3; [|done].
  exists v. split; [done|].
  destruct (date_of rt v); by simplify_eq.
Qed.

Lemma validate_keeps_text_as_given_witness :
  EventCreate.validate demo_runtime request_x = inr event_x
  ∧ request_x !! "title" = Some (VStr (EventCreate.title event_x))
  ∧ request_x !! "description" = Some (VStr (EventCreate.description event_x))
  ∧ request_x !! "event_time" = Some (VStr (EventCreate.event_time event_x))
  ∧ request_x !! "location" = Some (VStr (EventCreate.location event_x))
  ∧ request_x !! "category" = Some (VStr (EventCreate.category event_x))
  ∧ ∃ v, request_x !! "event_date" = Some v
         ∧ date_of demo_runtime v = Some (EventCreate.event_date event_x).
Proof.
  split; [vm_compute; reflexivity|].
  apply (validate_keeps_text_as_given demo_runtime request_x event_x).
  vm_compute; reflexivity.
Defined.

(** ** The gateway on any store *)

Lemma round_trip_data s r s' :
  round_trip s = (r, s') ->
  collections s' = collections s ∧ next_oid s' = next_oid s ∧ connected s' = connected s.
Proof.
  unfold round_trip. destruct (connected s) eqn:Hc; [|by intros [= <- <-]].
  destruct (faults s) as [|[] fs]; intros [= <- <-]; done.
Qed.

Lemma round_trip_down s :
  connected s = false -> ∃ msg, round_trip s = (inl (GatewayError msg), s).
Proof. intros Hc. unfold round_trip. rewrite Hc. eauto. Qed.

Lemma collection_same s s' name :
  collections s' = collections s -> collection name s' = collection name s.
Proof. unfold collection. by intros ->. Qed.

Lemma create_document_cases s name doc r s' :
  create_document name doc s = (r, s') ->
  connected s' = connected s
  ∧ ((∃ e, r = inl e)
       ∧ collections s' = collections s ∧ next_oid s' = next_oid s
     ∨ r = inr (str_oid (next_oid s))
       ∧ collections s'
         = <[name := collection name s ++ [stored_as (next_oid s) doc]]> (collections s)
       ∧ next_oid s' = (next_oid s + 1)%N).
Proof.
  unfold create_document, mbind, SE_bind.
  destruct (round_trip s) as [[e|[]] s1] eqn:Hrt;
    apply round_trip_data in Hrt as (Hcoll & Hoid & Hconn).
  - intros [= <- <-]. split; [done|]. left. eauto.
  - unfold gets, modify, mret, SE_ret. intros [= <- <-]. simpl.
    split; [done|]. right. unfold collection, stored_as.
    by rewrite Hcoll, Hoid.
Qed.

Lemma stored_from_cons oid doc docs :
  stored_from oid (doc :: docs) = stored_as oid doc :: stored_from (oid + 1) docs.
Proof.
  unfold stored_from, stored_as. simpl. rewrite N.add_0_r. f_equal.
  apply imap_ext. intros i d _. simpl. do 2 f_equal. lia.
Qed.

Lemma for_each_create_cases (l : list Doc) s r s' :
  for_each l (λ ev, create_document "event" ev) s = (r, s') ->
  ∃ k,
    k ≤ length l
    ∧ collection "event" s'
      = collection "event" s ++ stored_from (next_oid s) (take k l)
    ∧ delete "event" (collections s') = delete "event" (collections s)
    ∧ connected s' = connected s.
Proof.
  revert s. induction l as [|ev l IH]; intros s; simpl.
  - intros [= <- <-]. exists 0. by rewrite app_nil_r.
  - unfold mbind, SE_bind.
    destruct (create_document "event" ev s) as [[e|i] s1] eqn:Hcreate;
      apply create_document_cases in Hcreate as (Hconn & [([e' ?] & Hcoll & Hoid)|(? & Hcoll & Hoid)]);
      simplify_eq.
    + intros [= <- <-]. exists 0. simpl.
      split; [lia|]. rewrite app_nil_r, Hcoll.
      by rewrite (collection_same s s1).
    + intros Hrest. destruct (IH _ Hrest) as (k & Hk & Hc & Hd & Hconn').
      exists (S k). split; [lia|]. simpl take. rewrite stored_from_cons.
      rewrite Hc, Hd, Hconn', Hoid. unfold collection at 1. rewrite Hcoll.
      rewrite lookup_insert_eq. simpl. rewrite <- app_assoc. simpl.
      by rewrite delete_insert_eq.
Qed.

(** ** Seeding, further *)

Lemma ensure_seed_down (rt : Runtime) (s : Store) :
  connected s = false -> ensure_seed rt s = (inr tt, s).
Proof.
  intros Hc. unfold ensure_seed. apply try_except_run.
  erewrite bind_run by reflexivity. cbv beta. by rewrite Hc.
Qed.

(** X10. Without a database handle [ensure_seed] returns at once, before
    any round trip to the database: the store, its schedule of faults
    included, is exactly as it was. *)
Theorem ensure_seed_without_database (rt : Runtime) (s : Store) :
  connected s = false ->
  ensure_seed rt s = (inr tt, s).
Proof. intros Hc. by apply ensure_seed_down. Qed.

Lemma ensure_seed_without_database_witness :
  connected store_down = false
  ∧ ensure_seed demo_runtime store_down = (inr tt, store_down).
Proof.
  split; [reflexivity|].
  apply (ensure_seed_without_database demo_runtime store_down). reflexivity.
Defined.

Lemma ensure_seed_cases (rt : Runtime) (s : Store) :
  ∃ s' k,
    ensure_seed rt s = (inr tt, s')
    ∧ k ≤ 3
    ∧ (collection "event" s ≠ [] -> k = 0)
    ∧ collection "event" s'
      = collection "event" s ++ stored_from (next_oid s) (take k (SAMPLE_EVENTS rt))
    ∧ delete "event" (collections s') = delete "event" (collections s)
    ∧ connected s' = connected s.
Proof.
  destruct (connected s) eqn:Hc.
  2:{ exists s, 0. rewrite ensure_seed_down by done.
      rewrite take_0, app_nil_r. split_and!; try done; lia. }
  unfold ensure_seed, try_except.
  erewrite bind_run by reflexivity. cbv beta. rewrite Hc.
  change (negb true) with false. cbv iota.
  unfold count_documents, mbind at 1 2, SE_bind.
  destruct (round_trip s) as [[e|[]] s1] eqn:Hrt;
    apply round_trip_data in Hrt as (Hcoll & Hoid & Hconn).
  { exists s1, 0. rewrite take_0, app_nil_r, (collection_same s s1), Hcoll by done.
    rewrite Hconn, Hc. split_and!; try done; lia. }
  unfold gets. rewrite filter_matches_empty.
  destruct (decide (length (collection "event" s1) = 0)) as [Hz|Hnz].
  - destruct (for_each (SAMPLE_EVENTS rt) (λ ev, create_document "event" ev) s1)
      as [r s'] eqn:Hloop.
    apply for_each_create_cases in Hloop as (k & Hk & Hc' & Hd & Hconn').
    exists s', k. rewrite (collection_same s s1), Hoid in Hc' by done.
    split; [by destruct r as [?|[]]|].
    split; [done|].
    split. { intros Hne. rewrite (collection_same s s1) in Hz by done.
             by apply nil_length_inv in Hz. }
    by rewrite Hc', Hd, Hcoll, Hconn', Hconn, Hc.
  - exists s1, 0. rewrite take_0, app_nil_r, (collection_same s s1), Hcoll by done.
    rewrite Hconn, Hc. split_and!; try done; lia.
Qed.

(** X11. Whatever the store and whatever faults come, [ensure_seed] only
    appends to the [event] collection, and what it appends is the first [k]
    sample events, in order, under the next identifiers, for some [k] up to
    three: a fault in the middle of seeding leaves the samples before it in
    place.  No other collection changes. *)
Theorem ensure_seed_appends_a_prefix_of_samples (rt : Runtime) (s : Store) :
  ∃ s' k,
    ensure_seed rt s = (inr tt, s')
    ∧ k ≤ 3
    ∧ collection "event" s'
      = collection "event" s ++ stored_from (next_oid s) (take k (SAMPLE_EVENTS rt))
    ∧ delete "event" (collections s') = delete "event" (collections s).
Proof.
  destruct (ensure_seed_cases rt s) as (s' & k & H1 & H2 & _ & H3 & H4 & _).
  by exists s', k.
Qed.

(** X12. When the [event] collection holds a document, [ensure_seed]
    changes no collection, with or without faults: samples that a failed
    seeding left out are not added by a later call. *)
Theorem ensure_seed_leaves_nonempty_collection (rt : Runtime) (s : Store) :
  collection "event" s ≠ [] ->
  ∃ s',
    ensure_seed rt s = (inr tt, s')
    ∧ collection "event" s' = collection "event" s
    ∧ delete "event" (collections s') = delete "event" (collections s).
Proof.
  intros Hne.
  destruct (ensure_seed_cases rt s) as (s' & k & H1 & _ & Hk & H3 & H4 & _).
  exists s'. rewrite (Hk Hne) in H3. simpl in H3. by rewrite app_nil_r in H3.
Qed.

Lemma ensure_seed_leaves_nonempty_collection_witness :
  collection "event" store_with_x ≠ []
  ∧ ∃ s',
      ensure_seed demo_runtime store_with_x = (inr tt, s')
      ∧ collection "event" s' = collection "event" store_with_x
      ∧ delete "event" (collections s') = delete "event" (collections store_with_x).
Proof.
  assert (H : collection "event" store_with_x ≠ []).
  { unfold store_with_x. rewrite collection_insert_one. by intros [_ ?]%app_eq_nil. }
  split; [exact H|].
  apply (ensure_seed_leaves_nonempty_collection demo_runtime store_with_x H).
Defined.

(** A fault at the second insert leaves one sample; the next call, with
    the gateway up again, adds none. *)
Example partial_seed_is_never_completed :
  ∃ s1 s2,
    ensure_seed demo_runtime (mkStore true ∅ 0 [false; false; true]) = (inr tt, s1)
    ∧ faults s1 = []
    ∧ ensure_seed demo_runtime s1 = (inr tt, s2)
    ∧ length (collection "event" s2) = 1.
Proof. eexists _, _. repeat split; vm_compute; reflexivity. Qed.

(** X13. Every sample event satisfies the [Event] schema, whatever the day
    the module is imported; the date of the first one is in the month of
    that day, on day 28 at the latest. *)
Theorem sample_events_pass_the_schema (rt : Runtime) :
  Forall (λ ev, is_valid (Event.validate rt ev) = true) (SAMPLE_EVENTS rt)
  ∧ ∃ d, head (SAMPLE_EVENTS rt) ≫= (.!! "event_date") = Some (VDate d)
         ∧ year d = year (today rt) ∧ month d = month (today rt)
         ∧ day d = day (today rt) `min` 28.
Proof.
  split.
  - unfold SAMPLE_EVENTS. repeat constructor; vm_compute; reflexivity.
  - exists (replace_day (today rt) (28 `min` day (today rt))).
    split; [reflexivity|]. unfold replace_day. cbn [year month day].
    split_and!; lia.
Qed.

(** ** The endpoints, further *)

Lemma up_insert_one s name doc : up s -> up (insert_one name doc s).
Proof. by intros [? ?]. Qed.

Lemma get_documents_up s name filt :
  up s ->
  get_documents name filt s
  = (inr (filter (λ d, matches filt d = true) (collection name s)), s).
Proof.
  intros [Hc Hf]. unfold get_documents.
  by erewrite bind_run by (by apply round_trip_up).
Qed.

Lemma matches_singleton k v (d : Doc) :
  matches (<[k := v]> ∅) d = bool_decide (d !! k = Some v).
Proof.
  unfold matches. apply bool_decide_ext.
  rewrite map_Forall_insert by apply lookup_empty.
  split; [by intros [? _]|]. intros ?. split; [done|]. apply map_Forall_empty.
Qed.

Lemma matches_list_filter category featured (d : Doc) :
  matches (list_filter category featured) d = selected category featured d.
Proof.
  unfold list_filter, selected, truthy.
  destruct category as [c|]; [destruct (decide (c = "")) as [->|Hc]|].
  - simpl. destruct featured as [b|]; simpl;
      [apply matches_singleton | apply matches_empty].
  - rewrite bool_decide_eq_false_2 by done. simpl.
    destruct featured as [b|]; simpl.
    + unfold matches. rewrite <- bool_decide_and. apply bool_decide_ext.
      rewrite map_Forall_insert by (by rewrite lookup_insert_ne).
      rewrite map_Forall_insert by apply lookup_empty.
      split; [by intros (? & ? & _)|]. intros [? ?].
      split_and!; [done..|]. apply map_Forall_empty.
    + rewrite andb_true_r. apply matches_singleton.
  - simpl. destruct featured as [b|]; simpl;
      [apply matches_singleton | apply matches_empty].
Qed.

Lemma filter_selected_all (l : list Doc) :
  filter (λ d, selected None None d = true) l = l.
Proof.
  induction l as [|d l IH]; [done|].
  rewrite filter_cons_True by done. by rewrite IH.
Qed.

Lemma list_events_up (rt : Runtime) category featured s :
  up s ->
  collection "event" s ≠ [] ->
  list_events rt category featured s
  = (inr (Events (serialize_event rt <$>
                   filter (λ d, selected category featured d = true)
                          (collection "event" s))), s).
Proof.
  intros Hup Hne. pose proof Hup as [Hc Hf]. unfold list_events.
  erewrite bind_run; last first.
  { rewrite ensure_seed_up by done. rewrite decide_False; [done|].
    intros Hz. by apply nil_length_inv in Hz. }
  apply try_except_run.
  erewrite bind_run by (by apply get_documents_up).
  rewrite (list_filter_iff _ (λ d, selected category featured d = true)); [done|].
  intros d. by rewrite matches_list_filter.
Qed.

(** X14. On a store that is up, an accepted request is answered 201 with
    the identifier the gateway assigned and the fixed message, and the
    store gains exactly one document, at the end of the [event]
    collection: the dump of the parsed request under that identifier. *)
Theorem create_stores_the_parsed_request (rt : Runtime) (input : Doc)
    (e : EventCreate.t) (s : Store) :
  up s ->
  EventCreate.validate rt input = inr e ->
  post_api_events rt input s
  = (inr (mkResponse 201 (Json (Created (str_oid (next_oid s)) "Event created"))),
     insert_one "event" (EventCreate.model_dump e) s)
  ∧ collection "event" (insert_one "event" (EventCreate.model_dump e) s)
    = collection "event" s ++ [stored_as (next_oid s) (EventCreate.model_dump e)]
  ∧ delete "event" (collections (insert_one "event" (EventCreate.model_dump e) s))
    = delete "event" (collections s).
Proof.
  intros [Hc Hf] Hv. split_and!.
  - unfold post_api_events. rewrite Hv. unfold respond.
    rewrite create_event_run, create_document_up by done. reflexivity.
  - apply collection_insert_one.
  - simpl. by rewrite delete_insert_eq.
Qed.

Lemma create_stores_the_parsed_request_witness :
  up empty_store
  ∧ EventCreate.validate demo_runtime request_x = inr event_x
  ∧ post_api_events demo_runtime request_x empty_store
    = (inr (mkResponse 201 (Json (Created (str_oid (next_oid empty_store)) "Event created"))),
       insert_one "event" (EventCreate.model_dump event_x) empty_store)
  ∧ collection "event" (insert_one "event" (EventCreate.model_dump event_x) empty_store)
    = collection "event" empty_store
      ++ [stored_as (next_oid empty_store) (EventCreate.model_dump event_x)]
  ∧ delete "event" (collections (insert_one "event" (EventCreate.model_dump event_x) empty_store))
    = delete "event" (collections empty_store).
Proof.
  assert (Hup : up empty_store) by (split; reflexivity).
  assert (Hv : EventCreate.validate demo_runtime request_x = inr event_x)
    by (vm_compute; reflexivity).
  split; [exact Hup|]. split; [exact Hv|].
  apply (create_stores_the_parsed_request demo_runtime request_x event_x empty_store Hup Hv).
Defined.

(** X15. There is no duplicate detection: the same accepted request posted
    twice on a store that is up is stored twice, under two consecutive
    identifiers. *)
Theorem create_twice_stores_two (rt : Runtime) (input : Doc)
    (e : EventCreate.t) (s : Store) :
  up s ->
  EventCreate.validate rt input = inr e ->
  ∃ r1 s1 r2 s2,
    post_api_events rt input s = (inr r1, s1)
    ∧ post_api_events rt input s1 = (inr r2, s2)
    ∧ status r1 = 201 ∧ status r2 = 201
    ∧ collection "event" s2
      = collection "event" s
        ++ [stored_as (next_oid s) (EventCreate.model_dump e);
            stored_as (next_oid s + 1) (EventCreate.model_dump e)].
Proof.
  intros Hup Hv.
  pose proof (up_insert_one s "event" (EventCreate.model_dump e) Hup) as Hup1.
  pose proof Hup as [Hc Hf]. pose proof Hup1 as [Hc1 Hf1].
  do 4 eexists. split_and!.
  - unfold post_api_events. rewrite Hv. unfold respond.
    rewrite create_event_run, create_document_up by done. reflexivity.
  - unfold post_api_events. rewrite Hv. unfold respond.
    rewrite create_event_run, create_document_up by done. reflexivity.
  - done.
  - done.
  - rewrite !collection_insert_one. simpl next_oid.
    by rewrite <- app_assoc.
Qed.

Lemma create_twice_stores_two_witness :
  up empty_store
  ∧ EventCreate.validate demo_runtime request_x = inr event_x
  ∧ ∃ r1 s1 r2 s2,
      post_api_events demo_runtime request_x empty_store = (inr r1, s1)
      ∧ post_api_events demo_runtime request_x s1 = (inr r2, s2)
      ∧ status r1 = 201 ∧ status r2 = 201
      ∧ collection "event" s2
        = collection "event" empty_store
          ++ [stored_as (next_oid empty_store) (EventCreate.model_dump event_x);
              stored_as (next_oid empty_store + 1) (EventCreate.model_dump event_x)].
Proof.
  assert (Hup : up empty_store) by (split; reflexivity).
  assert (Hv : EventCreate.validate demo_runtime request_x = inr event_x)
    by (vm_compute; reflexivity).
  split; [exact Hup|]. split; [exact Hv|].
  apply (create_twice_stores_two demo_runtime request_x event_x empty_store Hup Hv).
Defined.

(** X16. What was created is what the list returns: after an accepted
    request on a store that is up, the list without filter returns the
    records that were there and then the new one, whose [id] is the
    identifier the create returned, whose [date] is the ISO text of the
    parsed date and whose [time] is the text given; nothing is seeded. *)
Theorem create_then_list (rt : Runtime) (input : Doc) (e : EventCreate.t) (s : Store) :
  up s ->
  EventCreate.validate rt input = inr e ->
  let oid := next_oid s in
  let record := serialize_event rt (stored_as oid (EventCreate.model_dump e)) in
  ∃ s1,
    post_api_events rt input s
    = (inr (mkResponse 201 (Json (Created (str_oid oid) "Event created"))), s1)
    ∧ get_api_events rt None None s1
      = (inr (mkResponse 200 (Json (Events
           ((serialize_event rt <$> collection "event" s) ++ [record])))), s1)
    ∧ record !! "id" = Some (VStr (str_oid oid))
    ∧ record !! "date" = Some (VStr (isoformat_date (EventCreate.event_date e)))
    ∧ record !! "time" = Some (VStr (EventCreate.event_time e))
    ∧ record !! "title" = Some (VStr (EventCreate.title e)).
Proof.
  intros Hup Hv oid record.
  pose proof (up_insert_one s "event" (EventCreate.model_dump e) Hup) as Hup1.
  pose proof Hup as [Hc Hf].
  exists (insert_one "event" (EventCreate.model_dump e) s). split_and!.
  - unfold post_api_events. rewrite Hv. unfold respond.
    rewrite create_event_run, create_document_up by done. reflexivity.
  - unfold get_api_events, respond.
    rewrite list_events_up; [|done|].
    2:{ rewrite collection_insert_one. by intros [_ ?]%app_eq_nil. }
    rewrite collection_insert_one.
    rewrite filter_selected_all, fmap_app. reflexivity.
  - subst record. rewrite serialize_event_lookup. unfold serialized_lookup, stored_as.
    rewrite decide_False by done. rewrite decide_True by done.
    by rewrite lookup_insert_eq.
  - subst record. rewrite serialize_event_lookup.
    unfold serialized_lookup, stored_as, EventCreate.model_dump.
    rewrite !(decide_False (P := "date" = _)) by done. rewrite decide_True by done.
    repeat (rewrite lookup_insert_eq || rewrite lookup_insert_ne by done).
    reflexivity.
  - subst record. rewrite serialize_event_lookup.
    unfold serialized_lookup, stored_as, EventCreate.model_dump.
    rewrite !(decide_False (P := "time" = _)) by done. rewrite decide_True by done.
    repeat (rewrite lookup_insert_eq || rewrite lookup_insert_ne by done).
    reflexivity.
  - subst record. rewrite serialize_event_lookup.
    unfold serialized_lookup, stored_as, EventCreate.model_dump.
    rewrite !(decide_False (P := "title" = _)) by done.
    rewrite decide_False by (intros [?|?]; done).
    repeat (rewrite lookup_insert_eq || rewrite lookup_insert_ne by done).
    reflexivity.
Qed.

Lemma create_then_list_witness :
  up empty_store
  ∧ EventCreate.validate demo_runtime request_x = inr event_x
  ∧ ∃ s1,
      post_api_events demo_runtime request_x empty_store
      = (inr (mkResponse 201 (Json (Created (str_oid (next_oid empty_store)) "Event created"))),
         s1)
      ∧ get_api_events demo_runtime None None s1
        = (inr (mkResponse 200 (Json (Events
             ((serialize_event demo_runtime <$> collection "event" empty_store)
              ++ [serialize_event demo_runtime
                    (stored_as (next_oid empty_store) (EventCreate.model_dump event_x))])))),
           s1)
      ∧ serialize_event demo_runtime
          (stored_as (next_oid empty_store) (EventCreate.model_dump event_x)) !! "id"
        = Some (VStr (str_oid (next_oid empty_store)))
      ∧ serialize_event demo_runtime
          (stored_as (next_oid empty_store) (EventCreate.model_dump event_x)) !! "date"
        = Some (VStr (isoformat_date (EventCreate.event_date event_x)))
      ∧ serialize_event demo_runtime
          (stored_as (next_oid empty_store) (EventCreate.model_dump event_x)) !! "time"
        = Some (VStr (EventCreate.event_time event_x))
      ∧ serialize_event demo_runtime
          (stored_as (next_oid empty_store) (EventCreate.model_dump event_x)) !! "title"
        = Some (VStr (EventCreate.title event_x)).
Proof.
  assert (Hup : up empty_store) by (split; reflexivity).
  assert (Hv : EventCreate.validate demo_runtime request_x = inr event_x)
    by (vm_compute; reflexivity).
  split; [exact Hup|]. split; [exact Hv|].
  apply (create_then_list demo_runtime request_x event_x empty_store Hup Hv).
Defined.

(** X17. The first list on a store that is up and has no event seeds the
    collection and returns the three sample events, in the order of
    [SAMPLE_EVENTS], as API records. *)
Theorem first_list_returns_the_samples (rt : Runtime) (s : Store) :
  up s ->
  collection "event" s = [] ->
  get_api_events rt None None s
  = (inr (mkResponse 200 (Json (Events
       (serialize_event rt <$> stored_from (next_oid s) (SAMPLE_EVENTS rt))))),
     seeded rt s).
Proof.
  intros Hup Hnil. pose proof Hup as [Hc Hf].
  destruct (collection_insert_all (SAMPLE_EVENTS rt) s) as (Hcoll & Hc' & Hf').
  fold (seeded rt s) in Hcoll, Hc', Hf'.
  unfold get_api_events, respond, list_events.
  erewrite bind_run; last first.
  { rewrite ensure_seed_up by done. rewrite Hnil. by rewrite decide_True. }
  erewrite try_except_run; last first.
  { erewrite bind_run; [reflexivity|].
    apply get_documents_up. split; congruence. }
  rewrite Hcoll, Hnil. simpl app.
  rewrite (list_filter_iff _ (λ d, selected None None d = true))
    by (intros d; by rewrite matches_list_filter).
  by rewrite filter_selected_all.
Qed.

Lemma first_list_returns_the_samples_witness :
  up empty_store
  ∧ collection "event" empty_store = []
  ∧ get_api_events demo_runtime None None empty_store
    = (inr (mkResponse 200 (Json (Events
         (serialize_event demo_runtime
            <$> stored_from (next_oid empty_store) (SAMPLE_EVENTS demo_runtime))))),
       seeded demo_runtime empty_store).
Proof.
  assert (Hup : up empty_store) by (split; reflexivity).
  split; [exact Hup|]. split; [reflexivity|].
  apply (first_list_returns_the_samples demo_runtime empty_store Hup). reflexivity.
Defined.

(** X18. On a store that is up and holds events, the list returns, in
    stored order, the API records of exactly the documents whose [category]
    is the category given (all of them when none is given or it is empty)
    and whose [is_featured] is the flag given (all of them when none is
    given); a document without the key asked for is left out.  The store
    does not change. *)
Theorem list_returns_the_selected_events (rt : Runtime) (category : option string)
    (featured : option bool) (s : Store) :
  up s ->
  collection "event" s ≠ [] ->
  get_api_events rt category featured s
  = (inr (mkResponse 200 (Json (Events
       (serialize_event rt <$>
          filter (λ d, selected category featured d = true) (collection "event" s))))),
     s).
Proof.
  intros Hup Hne. unfold get_api_events, respond.
  by rewrite list_events_up.
Qed.

Lemma list_returns_the_selected_events_witness :
  up store_with_x
  ∧ collection "event" store_with_x ≠ []
  ∧ get_api_events demo_runtime (Some "Tech") (Some false) store_with_x
    = (inr (mkResponse 200 (Json (Events
         (serialize_event demo_runtime <$>
            filter (λ d, selected (Some "Tech") (Some false) d = true)
                   (collection "event" store_with_x))))),
       store_with_x).
Proof.
  assert (Hup : up store_with_x) by (split; reflexivity).
  assert (Hne : collection "event" store_with_x ≠ []).
  { unfold store_with_x. rewrite collection_insert_one. by intros [_ ?]%app_eq_nil. }
  split; [exact Hup|]. split; [exact Hne|].
  apply (list_returns_the_selected_events demo_runtime (Some "Tech") (Some false)
           store_with_x Hup Hne).
Defined.

(** X19. Without a database handle the list is answered 500 and the store
    is as it was: seeding returns at once and the query raises. *)
Theorem list_without_database_is_answered_500 (rt : Runtime) (category : option string)
    (featured : option bool) (s : Store) :
  connected s = false ->
  ∃ msg,
    get_api_events rt category featured s = (inr (mkResponse 500 (Detail msg)), s).
Proof.
  intros Hc. destruct (round_trip_down s Hc) as [msg Hrt].
  exists msg. unfold get_api_events, respond, list_events.
  erewrite bind_run by (by apply ensure_seed_down).
  erewrite try_except_raise; last first.
  { apply bind_raise. unfold get_documents. by apply bind_raise. }
  reflexivity.
Qed.

Lemma list_without_database_is_answered_500_witness :
  connected store_down = false
  ∧ ∃ msg,
      get_api_events demo_runtime None None store_down
      = (inr (mkResponse 500 (Detail msg)), store_down).
Proof.
  split; [reflexivity|].
  apply (list_without_database_is_answered_500 demo_runtime None None store_down).
  reflexivity.
Defined.


(** X21. The create endpoint never lets an exception out and never
    answers with a server error: it answers 201, and then the [event]
    collection has one document more, or 400 or 422, and then no
    collection has changed.  No other collection ever changes. *)
Theorem create_is_answered_201_400_or_422 (rt : Runtime) (input : Doc) (s : Store) :
  ∃ r s',
    post_api_events rt input s = (inr r, s')
    ∧ is_server_error r = false
    ∧ delete "event" (collections s') = delete "event" (collections s)
    ∧ ((status r = 201
        ∧ length (collection "event" s') = S (length (collection "event" s)))
       ∨ ((status r = 400 ∨ status r = 422) ∧ collections s' = collections s)).
Proof.
  unfold post_api_events.
  destruct (EventCreate.validate rt input) as [errs|e].
  { exists (mkResponse 422 (DetailErrors errs)), s. split_and!; try done. right. auto. }
  unfold respond. rewrite create_event_run.
  destruct (create_document "event" (EventCreate.model_dump e) s) as [[err|i] s'] eqn:Hcreate.
  - apply create_document_cases in Hcreate as (_ & [(_ & Hcoll & _)|(Heq & _)]); [|done].
    do 2 eexists. split; [reflexivity|]. rewrite Hcoll. split_and!; try done. right. auto.
  - apply create_document_cases in Hcreate as (_ & [([e' He'] & _)|(_ & Hcoll & _)]); [done|].
    do 2 eexists. split; [reflexivity|]. split; [done|].
    split; [by rewrite Hcoll, delete_insert_eq|]. left. split; [done|].
    unfold collection at 1. rewrite Hcoll, lookup_insert_eq. simpl.
    rewrite length_app. simpl. lia.
Qed.

(** ** The diagnostic endpoint *)

(** The response after the [try] block, by cases on the handle. *)
Lemma probe_database_run (db : option Database) :
  probe_database db initial_response
  = (inr tt,
     match db with
     | None => <["database" := VStr "⚠️  Available but not initialized"]> initial_response
     | Some handle =>
         let connected_response :=
           <["connection_status" := VStr "Connected"]>
           (<["database_name" := match db_name handle with
                                 | Some v => v
                                 | None => VStr "✅ Connected"
                                 end]>
           (<["database_url" := VStr "✅ Configured"]>
           (<["database" := VStr "✅ Available"]> initial_response))) in
         match list_collection_names handle with
         | inr names =>
             <["database" := VStr "✅ Connected & Working"]>
             (<["collections" := VList (VStr <$> take 10 names)]> connected_response)
         | inl e =>
             <["database" := VStr ("⚠️  Connected but Error: " +:+ str_prefix 50 e)]>
             connected_response
         end
     end).
Proof.
  destruct db as [[name [e|names]]|]; reflexivity.
Qed.

Lemma test_database_run (db : option Database) (getenv : string -> option string) :
  ∃ probed,
    probe_database db initial_response = (inr tt, probed)
    ∧ test_database db getenv
      = inr (<["database_name" := env_flag getenv "DATABASE_NAME"]>
             (<["database_url" := env_flag getenv "DATABASE_URL"]> probed)).
Proof.
  eexists. split; [apply probe_database_run|].
  unfold test_database.
  erewrite bind_run by apply probe_database_run. reflexivity.
Qed.

(** X22. The diagnostic endpoint never lets an exception out, whatever the
    database handle does.  Its [database_url] and [database_name] report
    only whether the environment variables are set to a non-empty text:
    neither the configured mark nor the name of the database reaches the
    response. *)
Theorem diagnostic_reports_the_environment (db : option Database)
    (getenv : string -> option string) :
  ∃ response,
    test_database db getenv = inr response
    ∧ response !! "backend" = Some (VStr "✅ Running")
    ∧ response !! "database_url"
      = Some (VStr (match getenv "DATABASE_URL" with
                    | Some text => if decide (text = "") then "❌ Not Set" else "✅ Set"
                    | None => "❌ Not Set"
                    end))
    ∧ response !! "database_name"
      = Some (VStr (match getenv "DATABASE_NAME" with
                    | Some text => if decide (text = "") then "❌ Not Set" else "✅ Set"
                    | None => "❌ Not Set"
                    end))
    ∧ dom response
      = list_to_set ["backend"; "database"; "database_url"; "database_name";
                     "connection_status"; "collections"].
Proof.
  assert (Hflag : ∀ k, env_flag getenv k
    = VStr (match getenv k with
            | Some text => if decide (text = "") then "❌ Not Set" else "✅ Set"
            | None => "❌ Not Set"
            end)).
  { intros k. unfold env_flag, truthy. destruct (getenv k) as [text|]; [|done].
    by destruct (decide (text = "")); simplify_eq;
      rewrite ?bool_decide_eq_true_2, ?bool_decide_eq_false_2 by done. }
  destruct (test_database_run db getenv) as (probed & Hprobe & ->).
  rewrite probe_database_run in Hprobe. injection Hprobe as <-.
  eexists. split; [reflexivity|].
  rewrite <- !Hflag.
  destruct db as [[name [e|names]]|]; simpl; split_and!;
    by rewrite ?dom_insert_L, ?dom_empty_L.
Qed.

(** X23. The response lists the first ten collection names at most, in
    the order the handle gave them, and none when there is no handle or
    the listing raised. *)
Theorem diagnostic_lists_ten_collections_at_most (db : option Database)
    (getenv : string -> option string) :
  ∃ response,
    test_database db getenv = inr response
    ∧ response !! "collections"
      = Some (VList (VStr <$>
                match db with
                | Some handle =>
                    match list_collection_names handle with
                    | inr names => take 10 names
                    | inl _ => []
                    end
                | None => []
                end)).
Proof.
  destruct (test_database_run db getenv) as (probed & Hprobe & ->).
  rewrite probe_database_run in Hprobe. injection Hprobe as <-.
  eexists. split; [reflexivity|].
  by destruct db as [[name [e|names]]|].
Qed.

(** X24. [connection_status] says connected exactly when there is a
    handle, also when its listing raised.  [database] says working when
    the listing returned, says connected but in error, with the first
    fifty characters of the message, when it raised, and says not
    initialized when there is no handle; the text it was first given is
    never the answer. *)
Theorem diagnostic_database_status (db : option Database)
    (getenv : string -> option string) :
  ∃ response,
    test_database db getenv = inr response
    ∧ response !! "connection_status"
      = Some (VStr match db with
                   | Some _ => "Connected"
                   | None => "Not Connected"
                   end)
    ∧ response !! "database"
      = Some (VStr match db with
                   | Some handle =>
                       match list_collection_names handle with
                       | inr _ => "✅ Connected & Working"
                       | inl e => "⚠️  Connected but Error: " +:+ str_prefix 50 e
                       end
                   | None => "⚠️  Available but not initialized"
                   end)
    ∧ response !! "database" ≠ initial_response !! "database".
Proof.
  destruct (test_database_run db getenv) as (probed & Hprobe & ->).
  rewrite probe_database_run in Hprobe. injection Hprobe as <-.
  eexists. split; [reflexivity|].
  destruct db as [[name [e|names]]|]; by split_and!.
Qed.

(** ** The [User] schema *)

Lemma is_valid_age (lax_int : Value -> option Z) (z : Z) :
  is_valid (field_optional_int_between lax_int 0 120 "age" (Some (VInt z)))
  = bool_decide (0 ≤ z ≤ 120)%Z.
Proof.
  unfold field_optional_int_between. simpl.
  repeat case_decide; case_bool_decide; try done; lia.
Qed.

(** X25. [User] accepts an integer age exactly from 0 to 120, both
    included: with such an age an input is accepted when it is accepted
    without any age, and with an integer outside it never is. *)
Theorem user_age_is_between_0_and_120 (rt : Runtime) (lax_int : Value -> option Z)
    (fields : Doc) (z : Z) :
  is_valid (User.validate rt lax_int (<["age" := VInt z]> fields))
  = is_valid (User.validate rt lax_int (delete "age" fields))
    && bool_decide (0 ≤ z ≤ 120)%Z.
Proof.
  unfold User.validate.
  rewrite !is_valid_ap, !is_valid_map.
  rewrite lookup_insert_eq, lookup_delete_eq.
  rewrite !lookup_insert_ne, !lookup_delete_ne by done.
  rewrite is_valid_age. simpl is_valid at 4.
  by rewrite andb_true_r, <- !andb_assoc, (andb_comm (bool_decide _)).
Qed.

(** X26. A [User] input accepted without [age] and [is_active] has no age
    and is active. *)
Theorem user_defaults (rt : Runtime) (lax_int : Value -> option Z) (fields : Doc)
    (u : User.t) :
  fields !! "age" = None ->
  fields !! "is_active" = None ->
  User.validate rt lax_int fields = inr u ->
  User.age u = None ∧ User.is_active u = true.
Proof.
  intros Hage Hactive. unfold User.validate. rewrite Hage, Hactive. simpl.
  intros Hv.
  apply v_ap_inr in Hv as (f5 & a5 & Hv & H5 & ->).
  apply v_ap_inr in Hv as (f4 & a4 & Hv & H4 & ->).
  apply v_ap_inr in Hv as (f3 & a3 & Hv & H3 & ->).
  apply v_ap_inr in Hv as (f2 & a2 & Hv & H2 & ->).
  apply v_map_inr in Hv as (a1 & H1 & ->).
  simpl. by simplify_eq.
Qed.

Lemma user_defaults_witness :
  user_fields !! "age" = None
  ∧ user_fields !! "is_active" = None
  ∧ User.validate demo_runtime (λ _, None) user_fields
    = inr (User.mk "Ada" "ada@example.org" "1 Main St" None true)
  ∧ User.age (User.mk "Ada" "ada@example.org" "1 Main St" None true) = None
  ∧ User.is_active (User.mk "Ada" "ada@example.org" "1 Main St" None true) = true.
Proof.
  do 3 (split; [vm_compute; reflexivity|]).
  apply (user_defaults demo_runtime (λ _, None) user_fields
           (User.mk "Ada" "ada@example.org" "1 Main St" None true));
    vm_compute; reflexivity.
Defined.

(** ** Create on an input that fails validation *)

Lemma Event_lines (rt : Runtime) (input : Doc) :
  lines (Event.validate rt input)
  = lines (field_str "title" (input !! "title"))
    ++ lines (field_str "description" (input !! "description"))
    ++ lines (field_date rt "event_date" (input !! "event_date"))
    ++ lines (field_str "event_time" (input !! "event_time"))
    ++ lines (field_str "location" (input !! "location"))
    ++ lines (field_str "category" (input !! "category"))
    ++ lines (field_optional_str "cover_image" (input !! "cover_image"))
    ++ lines (field_list_str "tags" (input !! "tags"))
    ++ lines (field_bool rt "is_featured" (input !! "is_featured")).
Proof.
  unfold Event.validate. rewrite !lines_ap, lines_map.
  by rewrite <- !app_assoc.
Qed.

(** The storage schema refuses what the request model refuses, with the
    same error lines. *)
Lemma Event_rejects_alike (rt : Runtime) (input : Doc) (errs : list FieldError) :
  EventCreate.validate rt input = inl errs -> Event.validate rt input = inl errs.
Proof.
  intros Hv.
  pose proof (EventCreate_lines rt input) as Hlines. rewrite Hv in Hlines. simpl in Hlines.
  pose proof (EventCreate_valid rt input) as Hvalid. rewrite Hv in Hvalid. simpl in Hvalid.
  destruct (Event.validate rt input) as [errs'|e] eqn:He.
  - f_equal. rewrite Hlines, <- Event_lines. by rewrite He.
  - pose proof (Event_valid rt input) as Hvalid'. rewrite He in Hvalid'. simpl in Hvalid'.
    congruence.
Qed.

Lemma create_event_of_dump_rejected (rt : Runtime) (dumped : Doc)
    (errs : list FieldError) (s : Store) :
  Event.validate rt dumped = inl errs ->
  create_event_of_dump rt dumped s
  = (inl (HTTPException 400 (str_validation_error rt errs)), s).
Proof.
  intros Hv. unfold create_event_of_dump.
  rewrite (try_except_raise _ _ s (ValidationError errs) s); [reflexivity|].
  apply bind_raise. by rewrite Hv.
Qed.

(** C9. An input on which validation fails gets a client error that
    carries the message of the validation, and nothing is written: the
    store is exactly as it was.  As a request body the input is refused
    before [create_event] is called, with the error lines, at least one.
    As the fields of the object handed to [create_event], the validation
    inside [create_event] raises before [create_document] is reached, and
    the handler turns it into status 400 with the text of the validation
    error.  [create_event] is this function of the dump of its argument. *)
Theorem create_rejects_invalid_input (rt : Runtime) (input : Doc)
    (errs : list FieldError) (s : Store) :
  EventCreate.validate rt input = inl errs ->
  (∃ r,
     post_api_events rt input s = (inr r, s)
     ∧ is_client_error r = true
     ∧ body r = DetailErrors errs
     ∧ errs ≠ [])
  ∧ create_event_of_dump rt input s
    = (inl (HTTPException 400 (str_validation_error rt errs)), s)
  ∧ (∃ r,
       respond 201 (create_event_of_dump rt input) s = (inr r, s)
       ∧ is_client_error r = true
       ∧ body r = Detail (str_validation_error rt errs))
  ∧ ∀ event : EventCreate.t,
      create_event rt event = create_event_of_dump rt (EventCreate.model_dump event).
Proof.
  intros Hv.
  pose proof (create_event_of_dump_rejected rt input errs s (Event_rejects_alike rt input errs Hv))
    as Hrejected.
  split_and!.
  - exists (mkResponse 422 (DetailErrors errs)).
    unfold post_api_events. rewrite Hv.
    split_and!; [reflexivity..|]. by eapply EventCreate_validate_lines.
  - exact Hrejected.
  - exists (mkResponse 400 (Detail (str_validation_error rt errs))).
    unfold respond. rewrite Hrejected. by split_and!.
  - intros event. reflexivity.
Qed.

Lemma create_rejects_invalid_input_witness :
  EventCreate.validate demo_runtime request_undated = inl [field_error "event_date" "missing"]
  ∧ (∃ r,
       post_api_events demo_runtime request_undated empty_store = (inr r, empty_store)
       ∧ is_client_error r = true
       ∧ body r = DetailErrors [field_error "event_date" "missing"]
       ∧ [field_error "event_date" "missing"] ≠ [])
  ∧ create_event_of_dump demo_runtime request_undated empty_store
    = (inl (HTTPException 400
              (str_validation_error demo_runtime [field_error "event_date" "missing"])),
       empty_store)
  ∧ (∃ r,
       respond 201 (create_event_of_dump demo_runtime request_undated) empty_store
       = (inr r, empty_store)
       ∧ is_client_error r = true
       ∧ body r = Detail (str_validation_error demo_runtime
                            [field_error "event_date" "missing"]))
  ∧ ∀ event : EventCreate.t,
      create_event demo_runtime event
      = create_event_of_dump demo_runtime (EventCreate.model_dump event).
Proof.
  split; [vm_compute; reflexivity|].
  apply (create_rejects_invalid_input demo_runtime request_undated
           [field_error "event_date" "missing"] empty_store).
  vm_compute; reflexivity.
Defined.

(** On fields the storage schema accepts, [create_event] goes on to the
    write: validation first, then [create_document]. *)
Example create_event_of_dump_accepted :
  create_event_of_dump demo_runtime (EventCreate.model_dump event_x) empty_store
  = (inr (Created "000000000000000000000000" "Event created"), store_with_x).
Proof. vm_compute. reflexivity. Qed.

(** ** The list from its query string *)


(** [featured=maybe] is refused, and nothing is seeded. *)
Example list_refuses_featured_maybe :
  get_api_events_request demo_runtime query_maybe empty_store
  = (inr (mkResponse 422 (DetailErrors [field_error "featured" "bool_parsing"])), empty_store).
Proof. vm_compute. reflexivity. Qed.

(** The prefix of a message counts characters, not bytes. *)
Example str_prefix_counts_characters :
  str_prefix 2 "é✅x" = "é✅" ∧ str_prefix 50 "short" = "short" ∧ str_prefix 0 "x" = "".
Proof. repeat split. Qed.
